(** * GCN with SPMV optimisation: a shallow embedding of
      [examples/mxnet/gcn/gcn_spmv.py]

    The script trains a graph convolutional network with MXNet/Gluon on a
    DGL graph.  This development embeds the script's own code: the layer
    ([GCNLayer]), the model ([GCN]), the graph builder, the training loop and
    the evaluator of [main], and the [--normalization] argument of the
    command line.

    Conventions.

    - float32 values are idealised as real numbers ([R]).  The one place
      where the script can produce an IEEE infinity from finite data,
      [mx.nd.power(degs, -0.5)] at degree 0, is modelled with an explicit
      extended value ([xfloat]).
    - An [NDArray] of rank 2 is a list of rows; one of rank 1 is a list.
      Every shape check of the libraries that the script relies on is
      written out and raises ([ShapeError], [DGLError]).
    - Python exceptions are the [Raise] outcome of the [result] monad.
    - The mutable node frame [g.ndata], the random generator, the
      training-mode flag of autograd and the wall clock are threaded
      explicitly in a [world] record. *)

From Stdlib Require Import Reals Lra Lia List ZArith QArith String Bool.
From stdpp Require Import base option list gmap strings.
Import ListNotations.

Local Open Scope string_scope.
Local Open Scope list_scope.
Local Open Scope R_scope.

(* ===================================================================== *)
(** * Exceptions *)
(* ===================================================================== *)

Inductive exn : Type :=
| KeyError (k : string)     (* dict lookup / pop of a missing key *)
| ShapeError                (* MXNet: operands could not be broadcast, wrong width *)
| DGLError                  (* DGL frame: wrong number of rows *)
| IndexError                (* indexing an empty array *)
| ArgumentError             (* argparse: invalid choice / missing value *)
| NotReal.                  (* not an exception: a value became an IEEE infinity
                               or NaN, which the idealisation by real numbers
                               does not follow any further *)

Inductive result (A : Type) : Type :=
| Ok (a : A)
| Raise (e : exn).
Arguments Ok {A} a.
Arguments Raise {A} e.

Definition rbind {A B} (m : result A) (k : A -> result B) : result B :=
  match m with
  | Ok a => k a
  | Raise e => Raise e
  end.

Notation "'let*' p ':=' m 'in' k" := (rbind m (fun p => k))
  (at level 10, p pattern, m at level 100, k at level 200, only parsing).

Fixpoint mapM {A B} (f : A -> result B) (l : list A) : result (list B) :=
  match l with
  | [] => Ok []
  | a :: l' => let* b := f a in let* bs := mapM f l' in Ok (b :: bs)
  end.

(* ===================================================================== *)
(** * NDArray operations used by the script (module [nd]) *)
(* ===================================================================== *)

Module nd.

(** Arrays of rank 1 and of rank 2. *)
Abbreviation vector := (list R) (only parsing).
Abbreviation tensor := (list (list R)) (only parsing).

Definition rsum (l : list R) : R := fold_right Rplus 0 l.

(** [x.mean()] of a rank-1 array. *)
Definition mean (l : list R) : R := rsum l / INR (length l).

(** Broadcasting of a binary operation along one axis, as MXNet's
    [broadcast_*] operators do it: the two extents must be equal, or one
    of them must be 1 and is then repeated. *)
Fixpoint zipM {A B C} (f : A -> B -> result C) (xs : list A) (ys : list B)
  : result (list C) :=
  match xs, ys with
  | x :: xs', y :: ys' => let* c := f x y in let* cs := zipM f xs' ys' in Ok (c :: cs)
  | _, _ => Ok []
  end.

Definition bzip {A B C} (f : A -> B -> result C) (xs : list A) (ys : list B)
  : result (list C) :=
  if Nat.eqb (length xs) (length ys) then zipM f xs ys
  else match xs, ys with
       | [x], _ => mapM (f x) ys
       | _, [y] => mapM (fun x => f x y) xs
       | _, _ => Raise ShapeError
       end.

(** [a * b] on two rank-2 arrays ([broadcast_mul]). *)
Definition broadcast_mul (a b : tensor) : result tensor :=
  bzip (bzip (fun x y => Ok (x * y))) a b.

(** A rank-1 operand of a rank-2 broadcast is read as one row
    (shape [(n,)] is padded on the left to [(1, n)]). *)
Definition as_row (v : vector) : tensor := [v].

(** [mx.nd.expand_dims(v, 1)]: shape [(n,)] to [(n, 1)]. *)
Definition expand_dims1 (v : vector) : tensor := map (fun c => [c]) v.

(** [t * c] for a Python scalar [c]. *)
Definition scale (c : R) (t : tensor) : tensor := map (map (fun x => x * c)) t.

(** [softmax] and [log_softmax] along the last axis. *)
Definition softmax_row (x : list R) : list R :=
  let s := rsum (map exp x) in map (fun a => exp a / s) x.
Definition softmax (t : tensor) : tensor := map softmax_row t.

Definition log_softmax_row (x : list R) : list R :=
  let s := rsum (map exp x) in map (fun a => a - ln s) x.
Definition log_softmax (t : tensor) : tensor := map log_softmax_row t.

(** [t.pick(index)] along the last axis, [mode='clip']: row [i] yields its
    entry at [index[i]], an index past the end being clipped to the last
    column.  The index must have one entry per row. *)
Definition pick_row (x : list R) (i : nat) : result R :=
  match x !! (Nat.min i (length x - 1)) with
  | Some a => Ok a
  | None => Raise ShapeError
  end.

Definition pick (t : tensor) (index : list nat) : result vector :=
  if Nat.eqb (length t) (length index) then zipM pick_row t index
  else Raise ShapeError.

(** [pick(..., keepdims=True)]: the result keeps rank 2 with one column. *)
Definition pick_keepdims (t : tensor) (index : list nat) : result tensor :=
  let* v := pick t index in Ok (expand_dims1 v).

Definition neg (t : tensor) : tensor := map (map Ropp) t.

(** [mean(t, axis=0, exclude=True)]: the mean over every axis but the
    first, one value per row. *)
Definition mean_exclude_batch (t : tensor) : vector := map mean t.

(** [mx.nd.relu]. *)
Definition relu (t : tensor) : tensor := map (map (Rmax 0)) t.

(** Results of [mx.nd.power] on the reals extended with the one
    non-finite value the script can produce from a degree. *)
Inductive xfloat : Type :=
| Finite (r : R)
| PosInf
| NaN.

(** [power(x, y)] on scalars, as IEEE [pow]: a zero base with a negative
    exponent gives [+inf]; a negative base with a fractional exponent
    (the script only uses [-0.5]) is not a number. *)
Definition power (x y : R) : xfloat :=
  if Rlt_dec 0 x then Finite (Rpower x y)
  else if Rlt_dec x 0 then NaN
  else if Rlt_dec y 0 then PosInf
  else if Rlt_dec 0 y then Finite 0
  else Finite 1.

Definition is_finite (v : xfloat) : Prop := exists r, v = Finite r.

Definition finite_value (v : xfloat) : option R :=
  match v with Finite r => Some r | _ => None end.

End nd.

Import nd.

(* ===================================================================== *)
(** * The DGL graph and its node frame (module [dgl]) *)
(* ===================================================================== *)

Module dgl.

(** A directed graph on the nodes [0 .. number_of_nodes - 1]; an edge is a
    pair (source, destination).  [DGLGraph(data.graph)] keeps the nodes
    and the directed edges of the graph it is built from. *)
Record DGLGraph : Type := mkGraph {
  number_of_nodes : nat;
  edges : list (nat * nat)
}.

Definition number_of_edges (g : DGLGraph) : nat := length (edges g).

Definition in_degree (g : DGLGraph) (v : nat) : nat :=
  length (List.filter (fun e => Nat.eqb (snd e) v) (edges g)).

Definition out_degree (g : DGLGraph) (u : nat) : nat :=
  length (List.filter (fun e => Nat.eqb (fst e) u) (edges g)).

(** [g.in_degrees()]: one entry per node, in node order. *)
Definition in_degrees (g : DGLGraph) : list nat :=
  map (in_degree g) (seq 0 (number_of_nodes g)).

Definition has_edge (g : DGLGraph) (e : nat * nat) : bool :=
  existsb (fun e' => Nat.eqb (fst e') (fst e) && Nat.eqb (snd e') (snd e))
          (edges g).

(** [graph.add_edges_from(es)] of a simple directed graph: an edge that
    is already present is not added again.  The list stands for the set
    of edges: the place that a new edge takes in it is not the place that
    networkx gives it (networkx keeps the edges by source node), and no
    property below speaks of the order of the edges. *)
Definition add_edge (g : DGLGraph) (e : nat * nat) : DGLGraph :=
  if has_edge g e then g
  else mkGraph (number_of_nodes g) (edges g ++ [e]).

Definition add_edges_from (g : DGLGraph) (es : list (nat * nat)) : DGLGraph :=
  fold_left add_edge es g.

(** Every endpoint is a node of the graph. *)
Definition wf_graph (g : DGLGraph) : Prop :=
  Forall (fun e => (fst e < number_of_nodes g)%nat
                   /\ (snd e < number_of_nodes g)%nat) (edges g).

(** ** The node frame [g.ndata]: a dictionary of per-node arrays *)

(** [g.ndata[k]] *)
Definition frame_get (fr : gmap string tensor) (k : string) : result tensor :=
  match fr !! k with
  | Some t => Ok t
  | None => Raise (KeyError k)
  end.

(** [g.ndata[k] = t]: the array must have one row per node. *)
Definition frame_set (g : DGLGraph) (fr : gmap string tensor)
           (k : string) (t : tensor) : result (gmap string tensor) :=
  if Nat.eqb (length t) (number_of_nodes g) then Ok (<[k := t]> fr)
  else Raise DGLError.

(** [g.ndata.pop(k)] *)
Definition frame_pop (fr : gmap string tensor) (k : string)
  : result (tensor * gmap string tensor) :=
  match fr !! k with
  | Some t => Ok (t, delete k fr)
  | None => Raise (KeyError k)
  end.

(** ** Message passing *)

Definition vadd (a b : list R) : list R := zip_with Rplus a b.

Definition width (t : tensor) : nat :=
  match t with [] => O | r :: _ => length r end.

Definition zeros (n d : nat) : tensor := replicate n (replicate d 0).

(** One edge [(u, v)]: the message of the edge is the source's row
    ([copy_src]); it is added into the destination's row ([sum]). *)
Definition send_sum (h : tensor) (acc : tensor) (e : nat * nat) : tensor :=
  match h !! (fst e), acc !! (snd e) with
  | Some m, Some a => <[snd e := vadd a m]> acc
  | _, _ => acc
  end.

(** Modelled from the spec: [DGLGraph.update_all] with the built-in
    message function [copy_src] and the built-in reducer [sum], which
    are not among the sources.  The spec's words: "propagate by summing
    each node's (already-transformed, already-normalized) feature vector
    into every destination node it has an edge toward".  Every node
    starts from a zero row, and each edge adds its source's row into its
    destination's row. *)
Definition copy_src_sum (g : DGLGraph) (h : tensor) : tensor :=
  fold_left (send_sum h) (edges g) (zeros (number_of_nodes g) (width h)).

(** [g.update_all(fn.copy_src(src=src, out='m'), fn.sum(msg='m', out=out))]
    on the frame: reads the field [src], writes the field [out]. *)
Definition update_all (g : DGLGraph) (fr : gmap string tensor)
           (src out : string) : result (gmap string tensor) :=
  let* h := frame_get fr src in
  frame_set g fr out (copy_src_sum g h).

End dgl.

Import dgl.

(* ===================================================================== *)
(** * Gluon's [Dense] block *)
(* ===================================================================== *)

(** [gluon.nn.Dense(units, use_bias=...)]: the script gives no [in_units],
    so the width of the weight is fixed by the first input. *)
Record Dense : Type := mkDense {
  units : nat;
  use_bias : bool
}.

(** The parameters of one [Dense] block: a [units x in_units] weight and a
    bias of length [units]. *)
Record DenseParams : Type := mkDenseParams {
  weight : tensor;
  bias : vector
}.

Definition dot (x w : list R) : R := rsum (zip_with Rmult x w).

Definition wf_params (d : Dense) (in_units : nat) (p : DenseParams) : Prop :=
  length (weight p) = units d
  /\ Forall (fun w => length w = in_units) (weight p)
  /\ length (bias p) = units d.

(** [FullyConnected]: each row [x] becomes [W x + b]; the weight must have
    [units] rows whose length is the width of [x]. *)
Definition fc_row (d : Dense) (p : DenseParams) (x : list R) : result (list R) :=
  if Nat.eqb (length (weight p)) (units d)
     && forallb (fun w => Nat.eqb (length w) (length x)) (weight p)
     && (negb (use_bias d) || Nat.eqb (length (bias p)) (units d))
  then Ok (if use_bias d
           then zip_with Rplus (map (dot x) (weight p)) (bias p)
           else map (dot x) (weight p))
  else Raise ShapeError.

Definition Dense_forward (d : Dense) (p : DenseParams) (h : tensor)
  : result tensor :=
  mapM (fc_row d p) h.

(* ===================================================================== *)
(** * What the script takes from its libraries *)
(* ===================================================================== *)

(** The dataset object returned by [load_data]. *)
Record Data : Type := mkData {
  graph : DGLGraph;          (* data.graph *)
  features : tensor;         (* data.features, one row per node *)
  labels : list nat;         (* data.labels, one class index per node *)
  train_mask : vector;       (* data.train_mask, one 0/1 entry per node *)
  num_labels : nat           (* data.num_labels *)
}.

(** The flags that [register_data_args] adds to the parser. *)
Record DataArgs : Type := mkDataArgs {
  dataset : string
}.

(** The library entry points whose results the script only passes along:
    the random generator behind [mx.nd.Dropout] and the initialiser, the
    automatic differentiation of the recorded loss, the Adam trainer, the
    wall clock and the dataset registry. *)
Class Runtime : Type := {
  RNG : Type;
  (** [mx.nd.Dropout(h, p=p)] while autograd is in training mode. *)
  dropout_train : RNG -> Q -> tensor -> tensor * RNG;
  (** Parameter initialisation of the blocks, from the shapes
      [(units, in_units)] of their weights. *)
  init_params : list (nat * nat) -> RNG -> list DenseParams * RNG;
  Grads : Type;
  (** [loss.backward()]: the gradient, at the current parameters, of the
      sum of the entries of the recorded loss. *)
  backward : (list DenseParams -> result R) -> list DenseParams -> Grads;
  TrainerState : Type;
  (** [gluon.Trainer(params, 'adam', {'learning_rate': lr, 'wd': wd})] *)
  trainer_new : R -> R -> TrainerState;
  (** [trainer.step(batch_size)] *)
  trainer_step : TrainerState -> list DenseParams -> Grads -> nat
                 -> list DenseParams * TrainerState;
  (** Successive readings of [time.time()]. *)
  clock : nat -> R;
  (** Modelled from the spec: [dgl.data.load_data], which is not among the
      sources.  The spec's words: the loader "fetches a citation-graph-style
      dataset (features, labels, adjacency, train mask) from a registry of
      built-in datasets", selected by the "dataset selector and its
      registered sub-flags". *)
  load_dataset : DataArgs -> Data
}.

Section Script.

Context {RT : Runtime}.

(** The state that the script mutates or reads behind the scenes. *)
Record world : Type := mkWorld {
  ndata : gmap string tensor;   (* g.ndata *)
  rng : RNG;                    (* the random generator *)
  training : bool;              (* autograd's training mode *)
  ticks : nat                   (* number of clock readings so far *)
}.

Definition with_ndata (w : world) (fr : gmap string tensor) : world :=
  mkWorld fr (rng w) (training w) (ticks w).

Definition with_training (w : world) (b : bool) : world :=
  mkWorld (ndata w) (rng w) b (ticks w).

(** [time.time()] *)
Definition time (w : world) : R * world :=
  (clock (ticks w), mkWorld (ndata w) (rng w) (training w) (S (ticks w))).

(** [mx.nd.Dropout(h, p=p)]: the identity outside training mode. *)
Definition Dropout (w : world) (h : tensor) (p : Q) : tensor * world :=
  if training w
  then let '(h', r') := dropout_train (rng w) p h in
       (h', mkWorld (ndata w) r' (training w) (ticks w))
  else (h, w).

(** Truth value of a Python float. *)
Definition truthy (p : Q) : bool := negb (Qeq_bool p 0).

(* ===================================================================== *)
(** * [class GCNLayer] *)
(* ===================================================================== *)

Record GCNLayer : Type := mkGCNLayer {
  g : DGLGraph;                              (* self.g *)
  dense : Dense;                             (* self.dense *)
  activation : option (tensor -> tensor);    (* self.activation *)
  dropout : Q                                (* self.dropout *)
}.

(** [GCNLayer.__init__(g, in_feats, out_feats, activation, dropout, bias)].
    [in_feats] is accepted and not used. *)
Definition GCNLayer_init (g : DGLGraph) (in_feats out_feats : nat)
           (activation : option (tensor -> tensor)) (dropout : Q)
           (bias : bool) : GCNLayer :=
  mkGCNLayer g (mkDense out_feats bias) activation dropout.

(** [GCNLayer.forward(h)], with the layer's current parameters [p]. *)
Definition GCNLayer_forward (self : GCNLayer) (p : DenseParams)
           (w : world) (h : tensor) : result (tensor * world) :=
  let '(h, w) := if truthy (dropout self)
                 then Dropout w h (dropout self)
                 else (h, w) in
  let* h := Dense_forward (dense self) p h in
  (* normalization by square root of src degree *)
  let* norm := frame_get (ndata w) "norm" in
  let* h := broadcast_mul h norm in
  let* fr := frame_set (g self) (ndata w) "h" h in
  let* fr := update_all (g self) fr "h" "h" in
  let* (h, fr) := frame_pop fr "h" in
  let w := with_ndata w fr in
  (* normalization by square root of dst degree *)
  let* norm := frame_get (ndata w) "norm" in
  let* h := broadcast_mul h norm in
  let h := match activation self with
           | Some act => act h
           | None => h
           end in
  Ok (h, w).

(* ===================================================================== *)
(** * [class GCN] *)
(* ===================================================================== *)

Record GCN : Type := mkGCN {
  layers : list GCNLayer     (* self.layers, a [gluon.nn.Sequential] *)
}.

(** [Sequential.add(block)] *)
Definition Sequential_add (s : list GCNLayer) (l : GCNLayer) : list GCNLayer :=
  s ++ [l].

(** [GCN.__init__].  [range(n_layers - 1)] is empty when [n_layers <= 1].
    [normalization] is accepted and not used. *)
Definition GCN_init (g : DGLGraph) (in_feats n_hidden n_classes : nat)
           (n_layers : Z) (activation : option (tensor -> tensor))
           (dropout : Q) (normalization : option string) : GCN :=
  let layers := [] in
  (* input layer *)
  let layers := Sequential_add layers
                  (GCNLayer_init g in_feats n_hidden activation dropout true) in
  (* hidden layers *)
  let layers := Nat.iter (Z.to_nat (n_layers - 1))
                  (fun layers =>
                     Sequential_add layers
                       (GCNLayer_init g n_hidden n_hidden activation dropout true))
                  layers in
  (* output layer *)
  let layers := Sequential_add layers
                  (GCNLayer_init g n_hidden n_classes None dropout true) in
  mkGCN layers.

(** [for layer in self.layers: h = layer(h)], each layer with its own
    parameters. *)
Fixpoint run_layers (ls : list GCNLayer) (theta : list DenseParams)
         (w : world) (h : tensor) : result (tensor * world) :=
  match ls, theta with
  | [], _ => Ok (h, w)
  | l :: ls', p :: theta' =>
      let* (h, w) := GCNLayer_forward l p w h in
      run_layers ls' theta' w h
  | _ :: _, [] => Raise (KeyError "weight")
  end.

(** [GCN.forward(features)] *)
Definition GCN_forward (self : GCN) (theta : list DenseParams)
           (w : world) (features : tensor) : result (tensor * world) :=
  run_layers (layers self) theta w features.

(* ===================================================================== *)
(** * [gluon.loss.SoftmaxCELoss] and the accuracy of [main] *)
(* ===================================================================== *)

(** [gluon.loss.SoftmaxCELoss()(pred, label, sample_weight)] with the
    defaults of the constructor ([axis=-1], [sparse_label=True],
    [from_logits=False], [weight=None], [batch_axis=0]):
    [pred = log_softmax(pred)]; [loss = -pick(pred, label, keepdims=True)];
    [loss = broadcast_mul(loss, sample_weight)];
    [mean(loss, axis=0, exclude=True)].
    The per-node loss has shape [(n, 1)]; the weight is given as it is. *)
Definition SoftmaxCELoss (pred : tensor) (label : list nat)
           (sample_weight : tensor) : result vector :=
  let pred := log_softmax pred in
  let* loss := pick_keepdims pred label in
  let loss := neg loss in
  let* loss := broadcast_mul loss sample_weight in
  Ok (mean_exclude_batch loss).

(** [loss_fcn(pred, labels, mask)] as [main] calls it: [mask] is the
    rank-1 array [mx.nd.array(data.train_mask)]. *)
Definition loss_fcn (pred : tensor) (labels : list nat) (mask : vector)
  : result vector :=
  SoftmaxCELoss pred labels (as_row mask).

(** [(pred*100).softmax().pick(labels).mean()] *)
Definition accuracy (pred : tensor) (labels : list nat) : result R :=
  let* p := pick (softmax (scale 100 pred)) labels in
  Ok (mean p).

(* ===================================================================== *)
(** * [main] *)
(* ===================================================================== *)

Record Args : Type := mkArgs {
  data_args : DataArgs;           (* flags of register_data_args *)
  args_dropout : Q;               (* --dropout *)
  args_gpu : Z;                   (* --gpu *)
  args_lr : R;                    (* --lr *)
  args_n_epochs : Z;              (* --n-epochs *)
  args_n_hidden : nat;            (* --n-hidden *)
  args_n_layers : Z;              (* --n-layers *)
  args_normalization : option string;   (* --normalization *)
  args_self_loop : bool;          (* --self-loop *)
  args_weight_decay : R           (* --weight-decay *)
}.

(** What [main] prints, one constructor per [print] call, with the values
    that are formatted into the line. *)
Inductive line : Type :=
| EdgesClasses (n_edges n_classes : nat)            (* '#Edges %d, #Classes %d' *)
| Params (units : list nat)                         (* print(model.collect_params()): one block per layer,
                                                       its input width not yet known *)
| Epoch (epoch : nat) (loss time kteps : R)         (* "Epoch ... | Loss ... | Time(s) ... | ETputs(KTEPS) ..." *)
| FinalAccuracy (acc : R).                          (* "Final accuracy ..." *)

(** The shapes [(units, in_units)] of the weights, as fixed by the first
    forward pass on features of width [in_units]. *)
Fixpoint param_shapes (ls : list GCNLayer) (in_units : nat) : list (nat * nat) :=
  match ls with
  | [] => []
  | l :: ls' => (units (dense l), in_units) :: param_shapes ls' (units (dense l))
  end.

(** The variables of the training loop. *)
Record loop_state : Type := mkLoop {
  theta : list DenseParams;       (* the parameters of the model *)
  trainer : TrainerState;
  lworld : world;
  dur : list R;
  printed : list line
}.

(** [loss.asnumpy()[0]] *)
Definition first_entry (l : vector) : result R :=
  match l with
  | x :: _ => Ok x
  | [] => Raise IndexError
  end.

(** One iteration of [for epoch in range(args.n_epochs)]. *)
Definition epoch_body (model : GCN) (features : tensor) (labels : list nat)
           (mask : vector) (n_edges : nat)
           (st : loop_state) (epoch : nat) : result loop_state :=
  let w := lworld st in
  let '(t0, w) := if (3 <=? epoch)%nat then time w else (0, w) in
  (* forward, under mx.autograd.record() *)
  let recording := with_training w true in
  let* (pred, w') := GCN_forward model (theta st) recording features in
  let* loss := loss_fcn pred labels mask in
  let w := with_training w' (training w) in
  (* loss.backward() *)
  let grads :=
    backward (fun th =>
                let* (pred, _) := GCN_forward model th recording features in
                let* loss := loss_fcn pred labels mask in
                Ok (rsum loss))
             (theta st) in
  (* trainer.step(features.shape[0]) *)
  let '(theta', trainer') :=
    trainer_step (trainer st) (theta st) grads (length features) in
  if (3 <=? epoch)%nat then
    let '(t1, w) := time w in
    let dur := dur st ++ [t1 - t0] in
    let* loss0 := first_entry loss in
    Ok (mkLoop theta' trainer' w dur
               (printed st ++ [Epoch epoch loss0 (mean dur)
                                     (INR n_edges / mean dur / 1000)]))
  else
    Ok (mkLoop theta' trainer' w (dur st) (printed st)).

Fixpoint for_each {S : Type} (body : S -> nat -> result S) (range : list nat)
         (st : S) : result S :=
  match range with
  | [] => Ok st
  | i :: range' => let* st := body st i in for_each body range' st
  end.

(** [range(n)] for a Python integer [n]. *)
Definition range (n : Z) : list nat := seq 0 (Z.to_nat n).

Definition training_loop (model : GCN) (features : tensor) (labels : list nat)
           (mask : vector) (n_edges : nat) (n_epochs : Z)
           (st : loop_state) : result loop_state :=
  for_each (epoch_body model features labels mask n_edges) (range n_epochs) st.

(** [norm = mx.nd.power(degs, -0.5)] for [degs = g.in_degrees()] as floats. *)
Definition norm_coefficients (g : DGLGraph) : list xfloat :=
  map (fun d => power (INR d) (-0.5)) (in_degrees g).

(** The coefficients as real numbers, when all of them are finite. *)
Definition reals_of (l : list xfloat) : result vector :=
  mapM (fun v => match finite_value v with
                 | Some r => Ok r
                 | None => Raise NotReal
                 end) l.

(** [main(args)].  The device context ([args.gpu], [as_in_context]) moves
    arrays between devices and does not change their values; it is not
    modelled.  With a node that has no incoming edge the script goes on
    with the coefficient [+inf] and returns a NaN; this run is the
    outcome [Raise NotReal], the only place where [NotReal] arises. *)
Definition main (args : Args) (w : world) : result (R * list line * world) :=
  (* load and preprocess dataset *)
  let data := load_dataset (data_args args) in
  let graph :=
    if args_self_loop args
    then add_edges_from (graph data)
           (map (fun i => (i, i)) (seq 0 (number_of_nodes (graph data))))
    else graph data in
  let features := features data in
  let labels := labels data in
  let mask := train_mask data in
  let in_feats := width features in
  let n_classes := num_labels data in
  let n_edges := number_of_edges graph in
  let out := [EdgesClasses n_edges n_classes] in
  (* create GCN model *)
  let g := graph in
  (* normalization *)
  let* norm := reals_of (norm_coefficients g) in
  let* fr := frame_set g (ndata w) "norm" (expand_dims1 norm) in
  let w := with_ndata w fr in
  let model := GCN_init g in_feats (args_n_hidden args) n_classes
                 (args_n_layers args) (Some relu) (args_dropout args)
                 (args_normalization args) in
  let shapes := param_shapes (layers model) in_feats in
  let '(theta0, r) := init_params shapes (rng w) in
  let w := mkWorld (ndata w) r (training w) (ticks w) in
  (* use optimizer *)
  let out := out ++ [Params (map (fun l => units (dense l)) (layers model))] in
  let trainer := trainer_new (args_lr args) (args_weight_decay args) in
  (* initialize graph *)
  let* st := training_loop model features labels mask n_edges
               (args_n_epochs args) (mkLoop theta0 trainer w [] out) in
  (* test set accuracy *)
  let* (pred, w) := GCN_forward model (theta st) (lworld st) features in
  let* acc := accuracy pred labels in
  let out := printed st ++ [FinalAccuracy (mean [acc])] in
  Ok (mean [acc], out, w).

End Script.

(* ===================================================================== *)
(** * The command line: the [--normalization] argument *)
(* ===================================================================== *)

Module argparse.

(** The keywords of [parser.add_argument] that the script uses for an
    option taking one string value. *)
Record Argument : Type := mkArgument {
  flag : string;
  choices : option (list string);
  default : option string
}.

(** [choices]: a value outside the list is an "invalid choice" error. *)
Definition check_value (a : Argument) (v : string) : result string :=
  match choices a with
  | Some cs => if existsb (String.eqb v) cs then Ok v else Raise ArgumentError
  | None => Ok v
  end.

(** The value of the option after reading [argv], starting from [cur]:
    each occurrence of the flag takes the next word as its value; the
    words of other options are passed over.  Only the flag written in
    full and followed by its value is read: the abbreviations of a flag
    ([--norm]) and the form [--normalization=value], which argparse also
    takes, are outside this function. *)
Fixpoint parse_from (a : Argument) (argv : list string) (cur : option string)
  : result (option string) :=
  match argv with
  | [] => Ok cur
  | tok :: rest =>
      if String.eqb tok (flag a)
      then match rest with
           | v :: rest' =>
               let* v := check_value a v in parse_from a rest' (Some v)
           | [] => Raise ArgumentError
           end
      else parse_from a rest cur
  end.

Definition parse (a : Argument) (argv : list string) : result (option string) :=
  parse_from a argv (default a).

End argparse.

(** [parser.add_argument("--normalization", choices=['sym','left'],
    default=None, ...)] *)
Definition normalization_argument : argparse.Argument :=
  argparse.mkArgument "--normalization" (Some ["sym"; "left"]) None.

(** [args.normalization] after [parser.parse_args()] on [argv]. *)
Definition parse_normalization (argv : list string) : result (option string) :=
  argparse.parse normalization_argument argv.

(** The flag is accepted with the value [v]. *)
Definition accepts_normalization (v : string) : Prop :=
  parse_normalization ["--normalization"; v] = Ok (Some v).

(* ===================================================================== *)
(** * Reference definitions, following the specification's wording *)
(* ===================================================================== *)

Module spec.

(** [n x d] arrays. *)
Definition shape_is (n d : nat) (t : tensor) : Prop :=
  length t = n /\ Forall (fun r => length r = d) t.

(** ** The layer, as a formula *)

(** "apply a learned affine transform": [W x + b] on every row [x]
    (without [b] for a block built with [use_bias=False]). *)
Definition affine (d : Dense) (p : DenseParams) (h : tensor) : tensor :=
  map (fun x => if use_bias d
                then zip_with Rplus (map (dot x) (weight p)) (bias p)
                else map (dot x) (weight p)) h.

(** "multiply each row by that node's ... normalization" *)
Definition normalize (c : vector) (h : tensor) : tensor :=
  zip_with (fun row cv => map (fun a => a * cv) row) h c.

(** The rows that node [v] receives: the row of [u] for every edge
    [(u, v)], in edge order. *)
Definition inbox (g : DGLGraph) (x : tensor) (v : nat) : list (list R) :=
  omap (fun e => if Nat.eqb (snd e) v then x !! (fst e) else None) (edges g).

(** "aggregate assigns to each node v the sum over all edges (u, v) of
    the ... feature vector of source node u" *)
Definition aggregate (g : DGLGraph) (x : tensor) : tensor :=
  map (fun v => fold_right vadd (replicate (width x) 0) (inbox g x v))
      (seq 0 (number_of_nodes g)).

(** "apply a nonlinearity (identity for the final layer)" *)
Definition nonlinearity (act : option (tensor -> tensor)) (h : tensor) : tensor :=
  match act with Some f => f h | None => h end.

(** ** Graphs *)

(** An isolated node has no edge at all, neither in nor out. *)
Definition isolated (g : DGLGraph) (v : nat) : Prop :=
  in_degree g v = O /\ out_degree g v = O.

Definition no_isolated_nodes (g : DGLGraph) : Prop :=
  forall v, (v < number_of_nodes g)%nat -> ~ isolated g v.

(** Every edge has its reverse. *)
Definition symmetric (g : DGLGraph) : Prop :=
  forall u v, In (u, v) (edges g) -> In (v, u) (edges g).

(** "finite and non-negative" *)
Definition finite_nonneg (c : xfloat) : Prop :=
  exists r, c = Finite r /\ 0 <= r.

(** ** Accuracy, as the specification describes it *)

(** The first index of a largest entry. *)
Fixpoint argmax_from (best_i : nat) (best : R) (i : nat) (x : list R) : nat :=
  match x with
  | [] => best_i
  | a :: x' => if Rlt_dec best a then argmax_from i a (S i) x'
               else argmax_from best_i best (S i) x'
  end.

Definition argmax (x : list R) : nat :=
  match x with
  | [] => O
  | a :: x' => argmax_from O a 1%nat x'
  end.

Definition selected (m : R) : bool := if Req_dec_T m 0 then false else true.

(** "the fraction of mask-selected predictions matching ground-truth
    labels": (number of selected nodes whose predicted class is their
    label) / (number of selected nodes). *)
Definition masked_accuracy (pred : tensor) (labels : list nat) (mask : vector) : R :=
  let rows := combine (combine pred labels) mask in
  let sel := List.filter (fun r => selected (snd r)) rows in
  let hits := List.filter (fun r => Nat.eqb (argmax (fst (fst r))) (snd (fst r))) sel in
  INR (length hits) / INR (length sel).

(** The probability that the softmax of the logits [x], scaled by 100,
    gives to class [l] (clipped to the last class). *)
Definition label_probability (x : list R) (l : nat) : R :=
  exp (nth (Nat.min l (length x - 1)) x 0 * 100)
  / rsum (map (fun a => exp (a * 100)) x).

(** ** The masked loss, as the specification describes it *)

(** Cross entropy of one node: minus the log-probability of its label. *)
Definition cross_entropy (x : list R) (l : nat) : R :=
  - (nth (Nat.min l (length x - 1)) x 0 - ln (rsum (map exp x))).

End spec.

(** "optionally zero out features at a configured dropout rate": the
    array that the affine transform is applied to, and the world after the
    random draw. *)
Definition dropout_stage {RT : Runtime} (self : GCNLayer) (w : world)
           (h : tensor) : tensor * world :=
  if truthy (dropout self) then Dropout w h (dropout self) else (h, w).

(** [args] with another value of [--normalization]. *)
Definition with_normalization (args : Args) (normalization : option string)
  : Args :=
  mkArgs (data_args args) (args_dropout args) (args_gpu args) (args_lr args)
         (args_n_epochs args) (args_n_hidden args) (args_n_layers args)
         normalization (args_self_loop args) (args_weight_decay args).

(** The epochs for which a line was printed, in printing order. *)
Definition logged_epochs (out : list line) : list nat :=
  omap (fun l => match l with Epoch e _ _ _ => Some e | _ => None end) out.

(** Every weight takes as many inputs as the block before it has units. *)
Definition chained (shapes : list (nat * nat)) : Prop :=
  forall (i : nat) (a b : nat * nat),
    shapes !! i = Some a -> shapes !! S i = Some b -> snd b = fst a.

(** The graph that [main] builds under [--self-loop]:
    [data.graph.add_edges_from([(i,i) for i in range(len(data.graph))])]. *)
Definition with_self_loops (gr : DGLGraph) : DGLGraph :=
  add_edges_from gr (map (fun i => (i, i)) (seq 0 (number_of_nodes gr))).

(** The graph that [main] trains on: the data graph, with the self-loops
    when [--self-loop] is given. *)
Definition main_graph {RT : Runtime} (args : Args) : DGLGraph :=
  if args_self_loop args
  then with_self_loops (graph (load_dataset (data_args args)))
  else graph (load_dataset (data_args args)).

(** The model that [main] builds. *)
Definition main_model {RT : Runtime} (args : Args) : GCN :=
  GCN_init (main_graph args)
           (width (features (load_dataset (data_args args))))
           (args_n_hidden args)
           (num_labels (load_dataset (data_args args)))
           (args_n_layers args) (Some relu) (args_dropout args)
           (args_normalization args).

(** The variables of the training loop of [main] before its first
    iteration, when the coefficients are [norm]. *)
Definition loop_start {RT : Runtime} (args : Args) (w : world) (norm : vector)
  : loop_state :=
  let shapes := param_shapes (layers (main_model args))
                  (width (features (load_dataset (data_args args)))) in
  mkLoop (fst (init_params shapes (rng w)))
         (trainer_new (args_lr args) (args_weight_decay args))
         (mkWorld (<["norm" := expand_dims1 norm]> (ndata w))
                  (snd (init_params shapes (rng w))) (training w) (ticks w))
         []
         [EdgesClasses (number_of_edges (main_graph args))
                       (num_labels (load_dataset (data_args args)));
          Params (map (fun l => units (dense l)) (layers (main_model args)))].

(** The durations [time.time() - t0] of the first [m] timed epochs, when
    the clock has been read [k] times before the loop: a timed epoch
    reads the clock twice. *)
Definition durations {RT : Runtime} (k m : nat) : list R :=
  map (fun i => clock (k + 2 * i + 1) - clock (k + 2 * i)) (seq 0 m).

(** One propagation step of a layer, after its [Dense] block: scale by
    the coefficients, sum over the incoming edges, scale again. *)
Definition propagate (gr : DGLGraph) (c : vector) (x : tensor) : tensor :=
  spec.normalize c (spec.aggregate gr (spec.normalize c x)).

(** The line of one epoch, with the throughput computed from [n_edges]. *)
Definition epoch_line_of (n_edges : nat) (l : line) : Prop :=
  exists e loss t, l = Epoch e loss t (INR n_edges / t / 1000).

(* ===================================================================== *)
(** * A small concrete run-time and data set, to run the definitions on *)
(* ===================================================================== *)

Module example.

(** Two nodes, with an edge in each direction. *)
Definition two_nodes : DGLGraph := mkGraph 2 [(0, 1); (1, 0)]%nat.

(** One directed edge from node 0 to node 1. *)
Definition one_way : DGLGraph := mkGraph 2 [(0, 1)]%nat.

Definition data0 : Data :=
  mkData two_nodes [[1]; [1]] [0; 1]%nat [1; 0] 2.

(** A run-time in which dropout keeps every entry, weights start at 1
    and biases at 0, the trainer leaves the parameters as they are, and
    the clock reads 0, 1, 2, ... *)
#[local] Instance runtime0 : Runtime := {|
  RNG := unit;
  dropout_train := fun r _ h => (h, r);
  init_params := fun shapes r =>
    (map (fun s => mkDenseParams (replicate (fst s) (replicate (snd s) 1))
                                 (replicate (fst s) 0)) shapes, r);
  Grads := unit;
  backward := fun _ _ => tt;
  TrainerState := unit;
  trainer_new := fun _ _ => tt;
  trainer_step := fun ts th _ _ => (th, ts);
  clock := INR;
  load_dataset := fun _ => data0
|}.

Definition world0 : world := mkWorld ∅ tt false 0.

Definition args0 (n_epochs : Z) (normalization : option string) : Args :=
  mkArgs (mkDataArgs "cora") 0%Q (-1) 0.01 n_epochs 1 1 normalization
         false 0.0005.

(** One layer on [two_nodes], its parameters, a frame that holds the
    normalization, and an input with one feature per node. *)
Definition layer0 : GCNLayer :=
  GCNLayer_init two_nodes 1 1 (Some relu) 0%Q true.

Definition params0 : DenseParams := mkDenseParams [[1]] [0].

Definition world1 : world :=
  mkWorld (<["norm" := expand_dims1 [1; 1]]> ∅) tt false 0.

Definition h0 : list (list R) := [[1]; [1]].

(** Logits of two nodes over two classes, and a mask that selects the
    first node only. *)
Definition logits2 : list (list R) := [[1; 0]; [1; 0]].
Definition logits2' : list (list R) := [[0; 0]; [1; 0]].
Definition mask2 : list R := [1; 0].

(** The default model ([--n-layers 1]) on [two_nodes], with one input
    feature, one hidden unit and two classes, and parameters for it. *)
Definition model0 : GCN :=
  GCN_init two_nodes 1 1 2 1 (Some relu) 0.5%Q None.

Definition theta0 : list DenseParams :=
  [mkDenseParams [[1]] [0]; mkDenseParams [[1]; [2]] [0; 0]].




End example.

(* ===================================================================== *)
(** * Properties: the command line *)
(* ===================================================================== *)

Section CommandLine.

Lemma accepts_normalization_iff (v : string) :
  accepts_normalization v <-> v = "sym" \/ v = "left".
Proof.
  unfold accepts_normalization, parse_normalization, argparse.parse.
  cbn -[String.eqb].
  unfold argparse.check_value; cbn -[String.eqb].
  destruct (String.eqb_spec v "sym") as [-> | Hs]; cbn -[String.eqb].
  { split; auto. }
  destruct (String.eqb_spec v "left") as [-> | Hl]; cbn -[String.eqb].
  { split; auto. }
  split; [discriminate | intros [? | ?]; contradiction].
Qed.

(** C5, as the code has it: the flag takes exactly the two values
    ['sym'] and ['left']; when the flag is absent the value is [None];
    the word ['none'] is rejected as an invalid choice. *)
Theorem normalization_flag_accepts_sym_and_left :
  (forall v : string, accepts_normalization v <-> v = "sym" \/ v = "left")
  /\ parse_normalization [] = Ok None
  /\ parse_normalization ["--normalization"; "none"] = Raise ArgumentError.
Proof.
  split; [exact accepts_normalization_iff | split; reflexivity].
Qed.

(** C5, as the specification has it, fails: ['none'] is not among the
    accepted values. *)
Lemma normalization_none_is_rejected :
  ~ (forall v : string,
        accepts_normalization v <-> v = "sym" \/ v = "left" \/ v = "none").
Proof.
  intros H.
  assert (Hn : accepts_normalization "none") by (apply H; auto).
  apply accepts_normalization_iff in Hn.
  destruct Hn; discriminate.
Qed.

End CommandLine.

(* ===================================================================== *)
(** * Properties: arrays and broadcasting *)
(* ===================================================================== *)

Section Arrays.

Lemma mapM_Forall {A B} (f : A -> result B) (P : B -> Prop) :
  forall l l',
    (forall a b, In a l -> f a = Ok b -> P b) ->
    mapM f l = Ok l' -> Forall P l'.
Proof.
  induction l as [| a l IH]; intros l' Hf H; cbn in H.
  - inversion H; constructor.
  - destruct (f a) as [b |] eqn:Ea; cbn in H; [| discriminate].
    destruct (mapM f l) as [bs |] eqn:El; cbn in H; [| discriminate].
    inversion H; subst; constructor.
    + apply (Hf a); [left; reflexivity | exact Ea].
    + apply IH; [| reflexivity].
      intros a' b' Hin; apply Hf; right; exact Hin.
Qed.

Lemma mapM_length {A B} (f : A -> result B) :
  forall l l', mapM f l = Ok l' -> length l' = length l.
Proof.
  induction l as [| a l IH]; intros l' H; cbn in H.
  - inversion H; reflexivity.
  - destruct (f a) as [b |]; cbn in H; [| discriminate].
    destruct (mapM f l) as [bs |] eqn:El; cbn in H; [| discriminate].
    inversion H; subst; cbn; f_equal; auto.
Qed.

Lemma mapM_total {A B} (f : A -> result B) (k : A -> B) :
  forall l, Forall (fun a => f a = Ok (k a)) l -> mapM f l = Ok (map k l).
Proof.
  induction 1 as [| a l Ha _ IH]; cbn; [reflexivity |].
  rewrite Ha; cbn; rewrite IH; reflexivity.
Qed.

Lemma zipM_Forall {A B C} (f : A -> B -> result C) (P : C -> Prop) :
  forall xs ys l,
    (forall a b c, In a xs -> In b ys -> f a b = Ok c -> P c) ->
    zipM f xs ys = Ok l -> Forall P l.
Proof.
  induction xs as [| x xs IH]; intros ys l Hf H; cbn in H.
  - inversion H; constructor.
  - destruct ys as [| y ys]; [inversion H; constructor |].
    destruct (f x y) as [c |] eqn:Ec; cbn in H; [| discriminate].
    destruct (zipM f xs ys) as [cs |] eqn:Ez; cbn in H; [| discriminate].
    inversion H; subst; constructor.
    + apply (Hf x y); [left; reflexivity | left; reflexivity | exact Ec].
    + apply (IH ys); [| exact Ez].
      intros a b c' Ha Hb; apply Hf; right; assumption.
Qed.

Lemma zipM_total {A B C} (f : A -> B -> result C) (k : A -> B -> C) :
  (forall a b, f a b = Ok (k a b)) ->
  forall xs ys, zipM f xs ys = Ok (zip_with k xs ys).
Proof.
  intros Hf xs; induction xs as [| x xs IH]; intros [| y ys]; cbn; try reflexivity.
  rewrite Hf; cbn; rewrite IH; reflexivity.
Qed.

Lemma bzip_Forall {A B C} (f : A -> B -> result C) (P : C -> Prop) :
  forall xs ys l,
    (forall a b c, In a xs -> In b ys -> f a b = Ok c -> P c) ->
    bzip f xs ys = Ok l -> Forall P l.
Proof.
  intros xs ys l Hf; unfold bzip.
  destruct (Nat.eqb (length xs) (length ys)).
  - apply zipM_Forall; exact Hf.
  - destruct xs as [| x [| x' xs]]; destruct ys as [| y [| y' ys]];
      try discriminate; intros H;
      (eapply mapM_Forall; [| exact H]); cbn;
      intros a b Hin Hab; eapply Hf; try exact Hab; cbn; tauto.
Qed.

(** A row times a one-entry row: every entry is multiplied by it. *)
Lemma bzip_scalar (x : list R) (c : R) :
  bzip (fun a b => Ok (a * b)) x [c] = Ok (map (fun a => a * c) x).
Proof.
  unfold bzip.
  destruct x as [| a [| a' x]]; cbn; try reflexivity.
  f_equal. f_equal. f_equal.
  pose proof (mapM_total (fun a => Ok (a * c)) (fun a => a * c) x) as H.
  cut (mapM (fun a => Ok (a * c)) x = Ok (map (fun a => a * c) x)).
  { intros ->; reflexivity. }
  apply H, Forall_forall; reflexivity.
Qed.

(** [h * norm] for an [(n, 1)] array [norm] with one row per row of [h]. *)
Lemma broadcast_mul_normalize (h : tensor) (c : vector) :
  length h = length c ->
  broadcast_mul h (expand_dims1 c) = Ok (spec.normalize c h).
Proof.
  intros Hlen; unfold broadcast_mul, bzip at 1, expand_dims1.
  rewrite length_map, Hlen, Nat.eqb_refl.
  unfold spec.normalize.
  clear Hlen; revert c; induction h as [| x h IH]; intros [| cv c]; cbn; try reflexivity.
  rewrite bzip_scalar; cbn; rewrite IH; reflexivity.
Qed.

(** Multiplying by an array of one-entry rows keeps the width of the rows. *)
Lemma broadcast_mul_width (h : tensor) (c : vector) (d : nat) (out : tensor) :
  Forall (fun r => length r = d) h ->
  broadcast_mul h (expand_dims1 c) = Ok out ->
  Forall (fun r => length r = d) out.
Proof.
  intros Hh H; unfold broadcast_mul in H.
  eapply bzip_Forall; [| exact H].
  intros a b o Ha Hb Hab.
  unfold expand_dims1 in Hb; apply in_map_iff in Hb as [cv [<- _]].
  rewrite bzip_scalar in Hab; injection Hab as <-.
  rewrite length_map.
  rewrite List.Forall_forall in Hh; apply Hh; exact Ha.
Qed.

End Arrays.

(* ===================================================================== *)
(** * Properties: message passing *)
(* ===================================================================== *)

Section MessagePassing.

Lemma vadd_assoc (a b c : list R) : vadd (vadd a b) c = vadd a (vadd b c).
Proof.
  unfold vadd; revert b c; induction a as [| x a IH]; intros [| y b] [| z c];
    cbn; try reflexivity.
  f_equal; [lra | apply IH].
Qed.

Lemma vadd_zero_r (a : list R) : vadd a (replicate (length a) 0) = a.
Proof.
  unfold vadd; induction a as [| x a IH]; cbn; [reflexivity |].
  f_equal; [lra | exact IH].
Qed.

Lemma vadd_zero_l (a : list R) : vadd (replicate (length a) 0) a = a.
Proof.
  unfold vadd; induction a as [| x a IH]; cbn; [reflexivity |].
  f_equal; [lra | exact IH].
Qed.

Lemma vadd_length (a b : list R) (d : nat) :
  length a = d -> length b = d -> length (vadd a b) = d.
Proof. intros Ha Hb; unfold vadd; rewrite length_zip_with; lia. Qed.

Lemma width_rows (x : tensor) (d : nat) :
  Forall (fun r => length r = d) x -> x <> [] -> width x = d.
Proof. intros [| r x' Hr _] Hne; [contradiction | exact Hr]. Qed.

Section Scatter.

Variables (g : DGLGraph) (x : tensor) (d : nat).
Hypothesis rows_x : Forall (fun r => length r = d) x.

Lemma inbox_rows (es : list (nat * nat)) (v : nat) :
  Forall (fun r => length r = d)
         (omap (fun e => if Nat.eqb (snd e) v then x !! (fst e) else None) es).
Proof.
  induction es as [| e es IH]; cbn; [constructor |].
  destruct (Nat.eqb (snd e) v); [| exact IH].
  destruct (x !! fst e) as [m |] eqn:Em; [| exact IH].
  constructor; [| exact IH].
  eapply Forall_lookup_1 in rows_x; eauto.
Qed.

Lemma sum_rows_length (ms : list (list R)) :
  Forall (fun r => length r = d) ms ->
  length (fold_right vadd (replicate d 0) ms) = d.
Proof.
  induction 1 as [| m ms Hm _ IH]; cbn.
  - apply length_replicate.
  - apply vadd_length; assumption.
Qed.

Lemma send_sum_length (acc : tensor) (e : nat * nat) :
  length (send_sum x acc e) = length acc.
Proof.
  unfold send_sum.
  destruct (x !! fst e); [| reflexivity].
  destruct (acc !! snd e); [| reflexivity].
  apply length_insert.
Qed.

Lemma send_sum_rows (acc : tensor) (e : nat * nat) :
  Forall (fun r => length r = d) acc ->
  Forall (fun r => length r = d) (send_sum x acc e).
Proof.
  intros Hacc; unfold send_sum.
  destruct (x !! fst e) as [m |] eqn:Em; [| exact Hacc].
  destruct (acc !! snd e) as [a |] eqn:Ea; [| exact Hacc].
  apply Forall_insert; [exact Hacc |].
  apply vadd_length.
  - eapply Forall_lookup_1 in Hacc; eauto.
  - eapply Forall_lookup_1 in rows_x; eauto.
Qed.

(** Scattering the edges [es] into [acc] adds, to the row of every
    node [v], the sum of the rows that [v] receives along [es]. *)
Lemma scatter_lookup (es : list (nat * nat)) :
  forall (acc : tensor) (v : nat) (a : list R),
    Forall (fun r => length r = d) acc ->
    acc !! v = Some a ->
    fold_left (send_sum x) es acc !! v
    = Some (vadd a (fold_right vadd (replicate d 0)
               (omap (fun e => if Nat.eqb (snd e) v then x !! (fst e) else None) es))).
Proof.
  induction es as [| e es IH]; intros acc v a Hacc Ha; cbn.
  - rewrite Ha; f_equal.
    eapply Forall_lookup_1 in Hacc; eauto; cbn in Hacc.
    subst d; symmetry; apply vadd_zero_r.
  - pose proof (send_sum_rows acc e Hacc) as Hacc'.
    unfold send_sum in *.
    destruct (Nat.eqb_spec (snd e) v) as [Hv | Hv].
    + subst v. rewrite Ha in *.
      destruct (x !! fst e) as [m |] eqn:Em.
      * rewrite (IH _ (snd e) (vadd a m) Hacc').
        -- cbn. rewrite vadd_assoc. reflexivity.
        -- apply list_lookup_insert_eq. eapply lookup_lt_Some; eauto.
      * apply IH; assumption.
    + destruct (x !! fst e) as [m |] eqn:Em; [| apply IH; assumption].
      destruct (acc !! snd e) as [a' |] eqn:Ea'; [| apply IH; assumption].
      apply IH; [assumption |].
      rewrite list_lookup_insert_ne; [exact Ha | exact Hv].
Qed.

Lemma scatter_length (es : list (nat * nat)) (acc : tensor) :
  length (fold_left (send_sum x) es acc) = length acc.
Proof.
  revert acc; induction es as [| e es IH]; intros acc; cbn; [reflexivity |].
  rewrite IH; apply send_sum_length.
Qed.

End Scatter.

(** The message passing of the library (each edge adds into its
    destination) computes the per-node sums of the specification. *)
Lemma copy_src_sum_aggregate (g : DGLGraph) (x : tensor) (d : nat) :
  Forall (fun r => length r = d) x ->
  copy_src_sum g x = spec.aggregate g x.
Proof.
  intros Hx.
  destruct x as [| r0 x'] eqn:Ex.
  - (* no rows: nothing is ever sent *)
    unfold copy_src_sum, spec.aggregate, spec.inbox; cbn.
    assert (Hfold : forall es acc, fold_left (send_sum []) es acc = acc).
    { induction es as [| e es IH]; intros acc; cbn; [reflexivity |].
      rewrite IH; unfold send_sum; cbn; reflexivity. }
    rewrite Hfold; unfold zeros.
    assert (Hin : omap (fun e : nat * nat => None (A := list R)) (edges g) = []).
    { induction (edges g) as [| e es IH]; cbn; auto. }
    apply list_eq; intros v.
    rewrite list_lookup_fmap.
    destruct (decide (v < number_of_nodes g)%nat) as [Hv | Hv].
    + rewrite lookup_replicate_2 by exact Hv.
      rewrite lookup_seq_lt by exact Hv; cbn.
      f_equal.
      replace (omap _ (edges g)) with (@nil (list R)); [reflexivity |].
      symmetry; rewrite <- Hin at 1.
      clear; induction (edges g) as [| e es IH]; cbn; [reflexivity |].
      destruct (Nat.eqb (snd e) v); cbn; rewrite ?lookup_nil; exact IH.
    + rewrite (proj1 (lookup_replicate_None _ _ _)) by lia.
      rewrite lookup_seq_ge by lia; reflexivity.
  - rewrite <- Ex in *.
    assert (Hw : width x = d).
    { apply width_rows; [exact Hx | subst; discriminate]. }
    clear Ex r0 x'.
    unfold copy_src_sum, spec.aggregate, spec.inbox; rewrite Hw.
    apply list_eq; intros v.
    rewrite list_lookup_fmap.
    destruct (decide (v < number_of_nodes g)%nat) as [Hv | Hv].
    + rewrite lookup_seq_lt by exact Hv; cbn.
      rewrite (scatter_lookup x d Hx (edges g) _ v (replicate d 0)).
      * f_equal.
        pose proof (sum_rows_length d _ (inbox_rows x d Hx (edges g) v)) as Hl.
        rewrite <- Hl at 1; apply vadd_zero_l.
      * unfold zeros; apply Forall_replicate, length_replicate.
      * unfold zeros; apply lookup_replicate_2; exact Hv.
    + rewrite lookup_seq_ge by lia; cbn.
      apply lookup_ge_None_2.
      rewrite scatter_length; unfold zeros; rewrite length_replicate; lia.
Qed.

Lemma copy_src_sum_length (g : DGLGraph) (x : tensor) :
  length (copy_src_sum g x) = number_of_nodes g.
Proof.
  unfold copy_src_sum; rewrite scatter_length; apply length_replicate.
Qed.

Lemma copy_src_sum_rows (g : DGLGraph) (x : tensor) (d : nat) :
  Forall (fun r => length r = d) x -> x <> [] ->
  Forall (fun r => length r = d) (copy_src_sum g x).
Proof.
  intros Hx Hne; unfold copy_src_sum.
  rewrite (width_rows x d Hx Hne).
  assert (H0 : Forall (fun r => length r = d) (zeros (number_of_nodes g) d)).
  { apply Forall_replicate, length_replicate. }
  revert H0; generalize (zeros (number_of_nodes g) d).
  induction (edges g) as [| e es IH]; intros acc Hacc; cbn; [exact Hacc |].
  apply IH, send_sum_rows; assumption.
Qed.

End MessagePassing.

(* ===================================================================== *)
(** * Properties: the layer *)
(* ===================================================================== *)

Section Layer.

Context {RT : Runtime}.

Lemma Dropout_ndata (w : world) (h : tensor) (p : Q) :
  ndata (snd (Dropout w h p)) = ndata w.
Proof.
  unfold Dropout; destruct (training w); [| reflexivity].
  destruct (dropout_train (rng w) p h); reflexivity.
Qed.

Lemma dropout_stage_ndata (self : GCNLayer) (w : world) (h : tensor) :
  ndata (snd (dropout_stage self w h)) = ndata w.
Proof.
  unfold dropout_stage; destruct (truthy (dropout self)); [| reflexivity].
  apply Dropout_ndata.
Qed.

Lemma dropout_stage_eval (self : GCNLayer) (w : world) (h : tensor) :
  training w = false -> dropout_stage self w h = (h, w).
Proof.
  intros Hw; unfold dropout_stage, Dropout; rewrite Hw.
  destruct (truthy (dropout self)); reflexivity.
Qed.

Lemma fc_row_ok (d : Dense) (p : DenseParams) (in_units : nat) (x : list R) :
  wf_params d in_units p -> length x = in_units ->
  fc_row d p x
  = Ok (if use_bias d
        then zip_with Rplus (map (dot x) (weight p)) (bias p)
        else map (dot x) (weight p)).
Proof.
  intros (Hw & Hrows & Hb) Hx; unfold fc_row.
  rewrite Hw, Hb, !Nat.eqb_refl, orb_true_r; cbn.
  replace (forallb _ (weight p)) with true; [reflexivity |].
  symmetry; apply forallb_forall; intros r Hr.
  rewrite List.Forall_forall in Hrows.
  rewrite (Hrows r Hr), Hx; apply Nat.eqb_refl.
Qed.

Lemma fc_row_length (d : Dense) (p : DenseParams) (x o : list R) :
  fc_row d p x = Ok o -> length o = units d.
Proof.
  unfold fc_row.
  destruct (Nat.eqb_spec (length (weight p)) (units d)) as [Hw |]; cbn;
    [| discriminate].
  destruct (forallb _ (weight p)); cbn; [| discriminate].
  destruct (use_bias d); cbn.
  - destruct (Nat.eqb_spec (length (bias p)) (units d)) as [Hb |];
      [| discriminate].
    intros [= <-]; rewrite length_zip_with, length_map; lia.
  - intros [= <-]; rewrite length_map; exact Hw.
Qed.

(** The block [Dense] applies the affine map of its parameters to every
    row, when its parameters fit the width of the input. *)
Lemma Dense_forward_affine (d : Dense) (p : DenseParams) (n in_units : nat)
      (h : tensor) :
  wf_params d in_units p -> spec.shape_is n in_units h ->
  Dense_forward d p h = Ok (spec.affine d p h).
Proof.
  intros Hp [_ Hrows]; unfold Dense_forward, spec.affine.
  apply mapM_total.
  eapply Forall_impl; [exact Hrows |]; cbn; intros x Hx.
  eapply fc_row_ok; eauto.
Qed.

Lemma Dense_forward_rows (d : Dense) (p : DenseParams) (h out : tensor) :
  Dense_forward d p h = Ok out ->
  length out = length h /\ Forall (fun r => length r = units d) out.
Proof.
  intros H; split.
  - eapply mapM_length; exact H.
  - eapply mapM_Forall; [| exact H]; intros a b _; apply fc_row_length.
Qed.

(** What [forward] does to the node frame: whenever it returns, the frame
    is the one it started from without the field ['h']. *)
Lemma forward_frame (self : GCNLayer) (p : DenseParams) (w w' : world)
      (h out : tensor) :
  GCNLayer_forward self p w h = Ok (out, w') ->
  ndata w' = delete "h" (ndata w).
Proof.
  unfold GCNLayer_forward.
  pose proof (dropout_stage_ndata self w h) as Hd; unfold dropout_stage in Hd.
  destruct (if truthy (dropout self) then _ else _) as [h1 w1]; cbn in Hd.
  destruct (Dense_forward _ p h1) as [h2 |]; cbn; [| discriminate].
  unfold frame_get at 1.
  destruct (ndata w1 !! "norm") as [nm |] eqn:En; cbn; [| discriminate].
  destruct (broadcast_mul h2 nm) as [h3 |]; cbn; [| discriminate].
  unfold frame_set at 1.
  destruct (Nat.eqb (length h3) _); cbn; [| discriminate].
  unfold update_all, frame_get at 1.
  rewrite lookup_insert_eq; cbn.
  unfold frame_set at 1.
  destruct (Nat.eqb (length (copy_src_sum _ h3)) _); cbn; [| discriminate].
  unfold frame_pop; rewrite lookup_insert_eq; cbn.
  rewrite !delete_insert_eq.
  unfold frame_get.
  rewrite lookup_delete_ne by discriminate.
  rewrite En; cbn.
  destruct (broadcast_mul _ nm) as [h5 |]; cbn; [| discriminate].
  intros [= _ <-]; cbn.
  rewrite Hd; reflexivity.
Qed.

(** The output rows of a layer without nonlinearity have the width of
    its [Dense] block, when the frame holds an [(n, 1)] normalization. *)
Lemma forward_width (self : GCNLayer) (p : DenseParams) (w w' : world)
      (h out : tensor) (c : vector) :
  activation self = None ->
  ndata w !! "norm" = Some (expand_dims1 c) ->
  GCNLayer_forward self p w h = Ok (out, w') ->
  Forall (fun r => length r = units (dense self)) out.
Proof.
  intros Hact Hnorm; unfold GCNLayer_forward.
  pose proof (dropout_stage_ndata self w h) as Hd; unfold dropout_stage in Hd.
  destruct (if truthy (dropout self) then _ else _) as [h1 w1]; cbn in Hd.
  destruct (Dense_forward _ p h1) as [h2 |] eqn:E2; cbn; [| discriminate].
  apply Dense_forward_rows in E2 as [_ H2].
  unfold frame_get at 1; rewrite Hd, Hnorm; cbn.
  destruct (broadcast_mul h2 _) as [h3 |] eqn:E3; cbn; [| discriminate].
  apply (broadcast_mul_width _ _ _ _ H2) in E3.
  unfold frame_set at 1.
  destruct (Nat.eqb_spec (length h3) (number_of_nodes (g self))) as [Hn |];
    cbn; [| discriminate].
  unfold update_all, frame_get at 1.
  rewrite lookup_insert_eq; cbn.
  unfold frame_set at 1.
  destruct (Nat.eqb (length (copy_src_sum _ h3)) _); cbn; [| discriminate].
  unfold frame_pop; rewrite lookup_insert_eq; cbn.
  rewrite !delete_insert_eq.
  unfold frame_get.
  rewrite lookup_delete_ne by discriminate.
  rewrite Hnorm; cbn.
  destruct (broadcast_mul _ _) as [h5 |] eqn:E5; cbn; [| discriminate].
  rewrite Hact; intros [= <- _].
  eapply broadcast_mul_width; [| exact E5].
  destruct h3 as [| r h3'] eqn:Eh3.
  - (* no node at all *)
    pose proof (copy_src_sum_length (g self) []) as Hl.
    rewrite <- Hn in Hl; cbn in Hl.
    destruct (copy_src_sum (g self) []); [constructor | discriminate].
  - apply copy_src_sum_rows; [exact E3 | discriminate].
Qed.

(** The formula of the layer. *)
Lemma forward_formula (self : GCNLayer) (p : DenseParams) (w : world)
      (h : tensor) (c : vector) (in_units : nat) :
  ndata w !! "norm" = Some (expand_dims1 c) ->
  length c = number_of_nodes (g self) ->
  wf_params (dense self) in_units p ->
  spec.shape_is (number_of_nodes (g self)) in_units
                (fst (dropout_stage self w h)) ->
  GCNLayer_forward self p w h
  = Ok (spec.nonlinearity (activation self)
          (spec.normalize c
             (spec.aggregate (g self)
                (spec.normalize c
                   (spec.affine (dense self) p
                      (fst (dropout_stage self w h)))))),
        with_ndata (snd (dropout_stage self w h)) (delete "h" (ndata w))).
Proof.
  intros Hnorm Hc Hp Hh; unfold GCNLayer_forward.
  pose proof (dropout_stage_ndata self w h) as Hd; unfold dropout_stage in *.
  destruct (if truthy (dropout self) then _ else _) as [h1 w1];
    cbn in Hd, Hh |- *.
  rewrite (Dense_forward_affine _ _ _ _ _ Hp Hh); cbn.
  set (h2 := spec.affine (dense self) p h1).
  assert (Hlen2 : length h2 = length c).
  { unfold h2, spec.affine; rewrite length_map, Hc; apply Hh. }
  assert (Hrows2 : Forall (fun r => length r = units (dense self)) h2).
  { eapply Dense_forward_rows, Dense_forward_affine; eauto. }
  unfold frame_get at 1; rewrite Hd, Hnorm; cbn.
  rewrite (broadcast_mul_normalize _ _ Hlen2); cbn.
  set (h3 := spec.normalize c h2).
  assert (Hlen3 : length h3 = number_of_nodes (g self)).
  { unfold h3, spec.normalize; rewrite length_zip_with; lia. }
  assert (Hrows3 : Forall (fun r => length r = units (dense self)) h3).
  { eapply broadcast_mul_width; [exact Hrows2 |].
    apply broadcast_mul_normalize; exact Hlen2. }
  unfold frame_set at 1; rewrite Hlen3, Nat.eqb_refl; cbn.
  unfold update_all, frame_get at 1.
  rewrite lookup_insert_eq; cbn.
  unfold frame_set at 1.
  rewrite copy_src_sum_length, Nat.eqb_refl; cbn.
  unfold frame_pop; rewrite lookup_insert_eq; cbn.
  rewrite !delete_insert_eq.
  unfold frame_get.
  rewrite lookup_delete_ne by discriminate.
  rewrite Hnorm; cbn.
  rewrite broadcast_mul_normalize
    by (rewrite copy_src_sum_length; symmetry; exact Hc).
  cbn.
  rewrite (copy_src_sum_aggregate _ _ _ Hrows3).
  unfold spec.nonlinearity, with_ndata; cbn.
  destruct (activation self); reflexivity.
Qed.

End Layer.

(* ===================================================================== *)
(** * Properties: the model *)
(* ===================================================================== *)

Section Model.

Context {RT : Runtime}.

Lemma iter_Sequential_add (k : nat) (l : GCNLayer) (s : list GCNLayer) :
  Nat.iter k (fun s => Sequential_add s l) s = s ++ replicate k l.
Proof.
  induction k as [| k IH].
  - cbn; rewrite app_nil_r; reflexivity.
  - rewrite Nat.iter_succ, IH; unfold Sequential_add.
    rewrite <- app_assoc; f_equal.
    change (l :: replicate k l) with (replicate (S k) l).
    rewrite replicate_S_end; reflexivity.
Qed.

Lemma GCN_init_layers (gr : DGLGraph) (in_feats n_hidden n_classes : nat)
      (n_layers : Z) (act : option (tensor -> tensor)) (p : Q)
      (normalization : option string) :
  layers (GCN_init gr in_feats n_hidden n_classes n_layers act p normalization)
  = GCNLayer_init gr in_feats n_hidden act p true
    :: replicate (Z.to_nat (n_layers - 1))
                 (GCNLayer_init gr n_hidden n_hidden act p true)
    ++ [GCNLayer_init gr n_hidden n_classes None p true].
Proof.
  unfold GCN_init; cbn.
  rewrite iter_Sequential_add; unfold Sequential_add; cbn.
  reflexivity.
Qed.

Lemma param_shapes_app (ls1 ls2 : list GCNLayer) (i : nat) :
  param_shapes (ls1 ++ ls2) i
  = param_shapes ls1 i
    ++ param_shapes ls2 (match last ls1 with
                         | Some l => units (dense l)
                         | None => i
                         end).
Proof.
  revert i; induction ls1 as [| l ls1 IH]; intros i; cbn; [reflexivity |].
  rewrite IH; do 2 f_equal.
  destruct ls1 as [| l1 ls1']; [reflexivity |].
  rewrite (last_cons_cons l l1 ls1').
  destruct (last (l1 :: ls1')) eqn:E; [reflexivity |].
  apply last_None in E; discriminate.
Qed.

Lemma param_shapes_replicate (k u i : nat) (l : GCNLayer) :
  units (dense l) = u ->
  param_shapes (replicate k l) i
  = match k with O => [] | S k' => (u, i) :: replicate k' (u, u) end.
Proof.
  intros Hu; revert i; induction k as [| k IH]; intros i; cbn; [reflexivity |].
  rewrite IH, Hu; destruct k; reflexivity.
Qed.

Lemma param_shapes_chained (ls : list GCNLayer) (i : nat) :
  chained (param_shapes ls i).
Proof.
  revert i; induction ls as [| l ls IH]; intros i k a b Ha Hb; cbn in *.
  - discriminate.
  - destruct k as [| k]; cbn in *.
    + injection Ha as <-.
      destruct ls as [| l' ls]; cbn in Hb; [discriminate |].
      injection Hb as <-; reflexivity.
    + eapply IH; eauto.
Qed.

Lemma run_layers_norm (ls : list GCNLayer) :
  forall (theta : list DenseParams) (w w' : world) (h out : tensor),
    run_layers ls theta w h = Ok (out, w') ->
    ndata w' !! "norm" = ndata w !! "norm".
Proof.
  induction ls as [| l ls IH]; intros theta w w' h out H; cbn in H.
  - injection H as _ <-; reflexivity.
  - destruct theta as [| p theta]; [discriminate |].
    destruct (GCNLayer_forward l p w h) as [[h1 w1] |] eqn:E1; cbn in H;
      [| discriminate].
    rewrite (IH _ _ _ _ _ H), (forward_frame _ _ _ _ _ _ E1).
    apply lookup_delete_ne; discriminate.
Qed.

(** The last layer of a chain produces the output of the chain. *)
Lemma run_layers_last (front : list GCNLayer) (l : GCNLayer) :
  forall (theta : list DenseParams) (w w' : world) (h out : tensor),
    run_layers (front ++ [l]) theta w h = Ok (out, w') ->
    exists p w1 h1,
      GCNLayer_forward l p w1 h1 = Ok (out, w')
      /\ ndata w1 !! "norm" = ndata w !! "norm".
Proof.
  induction front as [| l0 front IH]; intros theta w w' h out H; cbn in H.
  - destruct theta as [| p theta]; [discriminate |].
    destruct (GCNLayer_forward l p w h) as [[h1 w1] |] eqn:E1; cbn in H;
      [| discriminate].
    injection H as <- <-; eauto.
  - destruct theta as [| p theta]; [discriminate |].
    destruct (GCNLayer_forward l0 p w h) as [[h1 w1] |] eqn:E1; cbn in H;
      [| discriminate].
    destruct (IH _ _ _ _ _ H) as (p' & w2 & h2 & Hf & Hn).
    exists p', w2, h2; split; [exact Hf |].
    rewrite Hn, (forward_frame _ _ _ _ _ _ E1).
    apply lookup_delete_ne; discriminate.
Qed.

(** C6: for [n_layers >= 1] the model is the chain of one input layer,
    [n_layers - 1] hidden layers and one output layer without activation
    ([n_layers + 1] layers in all); the weights have the shapes
    [n_hidden x in_feats], [n_hidden x n_hidden], ..., [n_classes x n_hidden],
    each taking as many inputs as the layer before it produces; and every
    row of the model's output has [n_classes] entries. *)
Theorem GCN_layers_chain (gr : DGLGraph) (in_feats n_hidden n_classes : nat)
        (n_layers : Z) (act : option (tensor -> tensor)) (p : Q)
        (normalization : option string) :
  (1 <= n_layers)%Z ->
  let model := GCN_init gr in_feats n_hidden n_classes n_layers act p
                        normalization in
  let hidden := Z.to_nat (n_layers - 1) in
  layers model
  = GCNLayer_init gr in_feats n_hidden act p true
    :: replicate hidden (GCNLayer_init gr n_hidden n_hidden act p true)
    ++ [GCNLayer_init gr n_hidden n_classes None p true]
  /\ length (layers model) = Z.to_nat (n_layers + 1)
  /\ param_shapes (layers model) in_feats
     = (n_hidden, in_feats)
       :: replicate hidden (n_hidden, n_hidden) ++ [(n_classes, n_hidden)]
  /\ chained (param_shapes (layers model) in_feats)
  /\ (forall l, last (layers model) = Some l ->
                activation l = None /\ units (dense l) = n_classes)
  /\ (forall (theta : list DenseParams) (w w' : world) (x out : tensor)
             (c : vector),
        ndata w !! "norm" = Some (expand_dims1 c) ->
        GCN_forward model theta w x = Ok (out, w') ->
        Forall (fun r => length r = n_classes) out).
Proof.
  intros Hn model hidden.
  pose proof (GCN_init_layers gr in_feats n_hidden n_classes n_layers act p
                              normalization) as Hl.
  fold model hidden in Hl.
  split; [exact Hl |].
  split.
  { rewrite Hl; cbn; rewrite length_app, length_replicate; cbn.
    unfold hidden; lia. }
  split.
  { rewrite Hl; cbn; f_equal.
    rewrite param_shapes_app, (param_shapes_replicate _ n_hidden) by reflexivity.
    destruct hidden as [| k]; cbn; [reflexivity |].
    f_equal.
    change (GCNLayer_init gr n_hidden n_hidden act p true :: replicate k _)
      with (replicate (S k) (GCNLayer_init gr n_hidden n_hidden act p true)).
    rewrite replicate_S_end, last_snoc; reflexivity. }
  split; [apply param_shapes_chained |].
  split.
  { intros l; rewrite Hl.
    change (?a :: ?b ++ [?c]) with ((a :: b) ++ [c]).
    rewrite last_snoc; intros [= <-]; split; reflexivity. }
  intros theta w w' x out c Hnorm Hrun.
  unfold GCN_forward in Hrun; rewrite Hl in Hrun.
  change (?a :: ?b ++ [?c]) with ((a :: b) ++ [c]) in Hrun.
  apply run_layers_last in Hrun as (p' & w1 & h1 & Hf & Hn1).
  eapply (forward_width _ _ _ _ _ _ c) in Hf; [exact Hf | reflexivity |].
  rewrite Hn1; exact Hnorm.
Qed.

(** C10: the value of [--normalization] reaches [GCN.__init__] and goes
    no further: the model, its forward output and everything that [main]
    prints and returns (the per-epoch losses and the final accuracy among
    them) are the same for any two values. *)
Theorem normalization_is_ignored (args : Args) (n1 n2 : option string) :
  (forall gr in_feats n_hidden n_classes n_layers act p,
      GCN_init gr in_feats n_hidden n_classes n_layers act p n1
      = GCN_init gr in_feats n_hidden n_classes n_layers act p n2)
  /\ (forall gr in_feats n_hidden n_classes n_layers act p theta w x,
         GCN_forward (GCN_init gr in_feats n_hidden n_classes n_layers act p n1)
                     theta w x
         = GCN_forward (GCN_init gr in_feats n_hidden n_classes n_layers act p n2)
                       theta w x)
  /\ (forall w, main (with_normalization args n1) w
                = main (with_normalization args n2) w).
Proof.
  split; [reflexivity |].
  split; reflexivity.
Qed.

(** C2: on an input of the right shape, [forward] returns
    activation(norm * aggregate(norm * dense(dropout(h)))), where
    [aggregate] gives every node the sum, over its incoming edges, of the
    source's row; a layer built without activation (as the final layer of
    the model is) applies nothing after the second normalization. *)
Theorem forward_is_normalized_aggregation
        (self : GCNLayer) (p : DenseParams) (w : world) (h : tensor)
        (c : vector) (in_units : nat) :
  ndata w !! "norm" = Some (expand_dims1 c) ->
  length c = number_of_nodes (g self) ->
  wf_params (dense self) in_units p ->
  spec.shape_is (number_of_nodes (g self)) in_units
                (fst (dropout_stage self w h)) ->
  GCNLayer_forward self p w h
  = Ok (spec.nonlinearity (activation self)
          (spec.normalize c
             (spec.aggregate (g self)
                (spec.normalize c
                   (spec.affine (dense self) p
                      (fst (dropout_stage self w h)))))),
        with_ndata (snd (dropout_stage self w h)) (delete "h" (ndata w)))
  /\ (forall x, spec.nonlinearity None x = x)
  /\ (forall gr in_feats n_hidden n_classes n_layers act dr nm l,
         last (layers (GCN_init gr in_feats n_hidden n_classes n_layers
                                act dr nm)) = Some l ->
         activation l = None).
Proof.
  intros Hnorm Hc Hp Hh.
  split; [eapply forward_formula; eauto |].
  split; [reflexivity |].
  intros gr in_feats n_hidden n_classes n_layers act dr nm l.
  rewrite GCN_init_layers.
  change (?a :: ?b ++ [?c]) with ((a :: b) ++ [c]).
  rewrite last_snoc; intros [= <-]; reflexivity.
Qed.

(** C9: whenever [forward] returns, the field ['h'] is absent from
    [g.ndata], the field ['norm'] and every other field are as before the
    call, and a frame that had no ['h'] before is unchanged. *)
Theorem forward_restores_ndata
        (self : GCNLayer) (p : DenseParams) (w w' : world) (h out : tensor) :
  GCNLayer_forward self p w h = Ok (out, w') ->
  ndata w' !! "h" = None
  /\ ndata w' !! "norm" = ndata w !! "norm"
  /\ (forall k : string, k <> "h" -> ndata w' !! k = ndata w !! k)
  /\ (ndata w !! "h" = None -> ndata w' = ndata w).
Proof.
  intros H; apply forward_frame in H; rewrite H.
  split; [apply lookup_delete_eq |].
  split; [apply lookup_delete_ne; discriminate |].
  split.
  - intros k Hk; apply lookup_delete_ne; congruence.
  - apply delete_id.
Qed.

End Model.

(* ===================================================================== *)
(** * Properties: the normalization coefficients *)
(* ===================================================================== *)

Section Normalization.

Lemma power_pos (x y : R) : 0 < x -> power x y = Finite (Rpower x y).
Proof.
  intros Hx; unfold power.
  destruct (Rlt_dec 0 x); [reflexivity | contradiction].
Qed.

Lemma power_zero_neg (y : R) : y < 0 -> power 0 y = PosInf.
Proof.
  intros Hy; unfold power.
  destruct (Rlt_dec 0 0) as [H |]; [lra |].
  destruct (Rlt_dec y 0); [reflexivity | contradiction].
Qed.

(** For a degree of at least 1 the coefficient is a real in (0, 1]. *)
Lemma power_degree (d : nat) :
  (1 <= d)%nat ->
  exists r, power (INR d) (-0.5) = Finite r /\ 0 < r <= 1.
Proof.
  intros Hd.
  assert (H1 : 1 <= INR d) by (change 1 with (INR 1); apply le_INR; exact Hd).
  exists (Rpower (INR d) (-0.5)); split.
  - apply power_pos; lra.
  - unfold Rpower; split; [apply exp_pos |].
    rewrite <- exp_0.
    destruct (Req_dec (INR d) 1) as [-> | Hne].
    + rewrite ln_1; right; f_equal; lra.
    + left; apply exp_increasing.
      assert (0 < ln (INR d)).
      { rewrite <- ln_1; apply ln_increasing; lra. }
      lra.
Qed.

Lemma norm_coefficients_lookup (gr : DGLGraph) (v : nat) :
  (v < number_of_nodes gr)%nat ->
  norm_coefficients gr !! v = Some (power (INR (in_degree gr v)) (-0.5)).
Proof.
  intros Hv; unfold norm_coefficients, in_degrees.
  rewrite !list_lookup_fmap, lookup_seq_lt by exact Hv; reflexivity.
Qed.

Lemma norm_coefficients_length (gr : DGLGraph) :
  length (norm_coefficients gr) = number_of_nodes gr.
Proof.
  unfold norm_coefficients, in_degrees; rewrite !length_map; apply length_seq.
Qed.

Lemma degree_pos_In (es : list (nat * nat)) (v : nat) (f : nat * nat -> nat) :
  (1 <= length (List.filter (fun e => Nat.eqb (f e) v) es))%nat <->
  exists e, In e es /\ f e = v.
Proof.
  induction es as [| e es IH]; cbn.
  - split; [lia | intros [e [[] _]]].
  - destruct (Nat.eqb_spec (f e) v) as [He | He]; cbn.
    + split; [intros _; exists e; auto | lia].
    + rewrite IH; split.
      * intros [e' [Hin He']]; exists e'; auto.
      * intros [e' [[<- | Hin] He']]; [contradiction | exists e'; auto].
Qed.

(** In a symmetric graph a node that is not isolated has an incoming edge. *)
Lemma symmetric_in_degree (gr : DGLGraph) (v : nat) :
  spec.symmetric gr -> ~ spec.isolated gr v -> (1 <= in_degree gr v)%nat.
Proof.
  intros Hsym Hiso.
  destruct (in_degree gr v) as [| k] eqn:Hin; [| lia].
  destruct (out_degree gr v) as [| k] eqn:Hout.
  - exfalso; apply Hiso; split; assumption.
  - assert (H : (1 <= out_degree gr v)%nat) by lia.
    unfold out_degree in H; apply degree_pos_In in H as [[u v'] [He Hu]].
    cbn in Hu; subst u.
    apply Hsym in He.
    assert (H : (1 <= in_degree gr v)%nat).
    { unfold in_degree; apply degree_pos_In; exists (v', v); auto. }
    lia.
Qed.

(** C3, as the code has it: when every node has at least one incoming
    edge, every coefficient is finite and non-negative (it lies in
    (0, 1]).  In a symmetric graph this is the case as soon as no node is
    isolated. *)
Theorem norm_finite_when_in_degree_positive (gr : DGLGraph) :
  (forall v, (v < number_of_nodes gr)%nat -> (1 <= in_degree gr v)%nat) ->
  Forall spec.finite_nonneg (norm_coefficients gr)
  /\ Forall (fun c => exists r, c = Finite r /\ 0 < r <= 1)
            (norm_coefficients gr)
  /\ exists norm, reals_of (norm_coefficients gr) = Ok norm
                  /\ length norm = number_of_nodes gr.
Proof.
  intros Hdeg.
  assert (H : Forall (fun c => exists r, c = Finite r /\ 0 < r <= 1)
                     (norm_coefficients gr)).
  { apply Forall_lookup; intros v c Hc.
    assert (Hv : (v < number_of_nodes gr)%nat).
    { rewrite <- norm_coefficients_length; eapply lookup_lt_Some; eauto. }
    rewrite (norm_coefficients_lookup _ _ Hv) in Hc; injection Hc as <-.
    apply power_degree, Hdeg, Hv. }
  split; [| split; [exact H |]].
  - eapply Forall_impl; [exact H |].
    intros c (r & -> & Hr); exists r; split; [reflexivity | lra].
  - rewrite <- norm_coefficients_length; unfold reals_of.
    induction H as [| c cs (r & -> & _) _ (norm & Hn & Hl)]; cbn.
    + exists []; split; reflexivity.
    + rewrite Hn; cbn; exists (r :: norm); split; [reflexivity | cbn; lia].
Qed.

(** The same for symmetric graphs, in the words of the specification. *)
Corollary norm_finite_symmetric (gr : DGLGraph) :
  spec.symmetric gr -> spec.no_isolated_nodes gr ->
  Forall spec.finite_nonneg (norm_coefficients gr).
Proof.
  intros Hsym Hiso.
  assert (Hdeg : forall v, (v < number_of_nodes gr)%nat ->
                           (1 <= in_degree gr v)%nat).
  { intros v Hv; apply symmetric_in_degree; auto. }
  clear Hiso Hsym.
  apply Forall_lookup; intros v c Hc.
  assert (Hv : (v < number_of_nodes gr)%nat).
  { rewrite <- norm_coefficients_length; eapply lookup_lt_Some; eauto. }
  rewrite (norm_coefficients_lookup _ _ Hv) in Hc; injection Hc as <-.
  destruct (power_degree _ (Hdeg v Hv)) as (r & Hr & Hb).
  exists r; split; [exact Hr | lra].
Qed.

(** C3, as the specification has it, fails on directed graphs: in the
    graph with the single edge 0 -> 1 no node is isolated, and the
    coefficient of node 0, which has no incoming edge, is +inf. *)
Lemma norm_infinite_without_incoming_edge :
  spec.no_isolated_nodes example.one_way
  /\ norm_coefficients example.one_way !! 0%nat = Some PosInf
  /\ ~ Forall spec.finite_nonneg (norm_coefficients example.one_way).
Proof.
  assert (H0 : norm_coefficients example.one_way !! 0%nat = Some PosInf).
  { rewrite norm_coefficients_lookup by (cbn; lia).
    cbn; f_equal; apply power_zero_neg; lra. }
  split; [| split; [exact H0 |]].
  - intros v Hv [Hin Hout]; cbn in Hv.
    destruct v as [| [| v]]; [| | lia]; cbn in Hin, Hout; discriminate.
  - intros HF.
    eapply Forall_lookup_1 in HF; [| exact H0].
    destruct HF as (r & Hr & _); discriminate.
Qed.

End Normalization.

(* ===================================================================== *)
(** * Properties: the accuracy of [main] *)
(* ===================================================================== *)

Section Accuracy.


Lemma div_nonneg (a s : R) : 0 <= a -> 0 < s -> 0 <= a / s.
Proof.
  intros Ha Hs; apply Rmult_le_pos; [exact Ha |].
  left; apply Rinv_0_lt_compat; exact Hs.
Qed.

Lemma rsum_cons (a : R) (l : list R) : rsum (a :: l) = a + rsum l.
Proof. reflexivity. Qed.

Lemma rsum_exp_nonneg (x : list R) : 0 <= rsum (map exp x).
Proof.
  induction x as [| a x IH]; cbn [map]; [cbn; lra |].
  rewrite rsum_cons; pose proof (exp_pos a); lra.
Qed.


Lemma rsum_exp_ge (x : list R) (i : nat) (a : R) :
  x !! i = Some a -> exp a <= rsum (map exp x).
Proof.
  revert i; induction x as [| b x IH]; intros i Hi.
  - rewrite lookup_nil in Hi; discriminate.
  - cbn [map]; rewrite rsum_cons.
    destruct i as [| i]; cbn in Hi.
    + injection Hi as ->. pose proof (rsum_exp_nonneg x); lra.
    + pose proof (IH i Hi); pose proof (exp_pos b); lra.
Qed.





Lemma mean_singleton (a : R) : mean [a] = a.
Proof. unfold mean; cbn; field. Qed.


(** The probability that a non-empty row gives to a label. *)
Lemma pick_row_label_probability (x : list R) (l : nat) :
  x <> [] ->
  pick_row (softmax_row (map (fun a => a * 100) x)) l
  = Ok (spec.label_probability x l).
Proof.
  intros Hx; unfold pick_row, softmax_row, spec.label_probability.
  rewrite !length_map, !list_lookup_fmap.
  assert (Hi : (Nat.min l (length x - 1) < length x)%nat).
  { destruct x; [contradiction | cbn; lia]. }
  destruct (lookup_lt_is_Some_2 x _ Hi) as [a Ha].
  rewrite Ha; cbn.
  rewrite (nth_lookup_Some _ _ 0 _ Ha), map_map; reflexivity.
Qed.

(** The accuracy of [main], as a formula: the mean over all rows of the
    probability that the row gives to its label. *)
Lemma accuracy_formula (pred : tensor) (labels : list nat) :
  length labels = length pred ->
  Forall (fun x => x <> []) pred ->
  accuracy pred labels
  = Ok (rsum (zip_with spec.label_probability pred labels)
        / INR (length pred)).
Proof.
  intros Hlen Hrows; unfold accuracy, pick.
  unfold softmax, scale; rewrite !length_map, Hlen, Nat.eqb_refl.
  assert (Hz : zipM pick_row
                    (map softmax_row (map (map (fun x => x * 100)) pred))
                    labels
               = Ok (zip_with spec.label_probability pred labels)).
  { clear Hlen; revert labels.
    induction Hrows as [| x pred Hx _ IH]; intros [| l labels]; cbn;
      try reflexivity.
    rewrite (pick_row_label_probability x l Hx); cbn.
    rewrite IH; reflexivity. }
  rewrite Hz; cbn; unfold mean.
  rewrite length_zip_with, Hlen, Nat.min_id; reflexivity.
Qed.

End Accuracy.

(* ===================================================================== *)
(** * Properties: [main] *)
(* ===================================================================== *)

Section Main.

Context {RT : Runtime}.

(** One epoch prints its line exactly when its index is at least 3. *)
Lemma epoch_body_logged (model : GCN) (feats : tensor) (labs : list nat)
      (mask : vector) (n_edges : nat) (st st' : loop_state) (e : nat) :
  epoch_body model feats labs mask n_edges st e = Ok st' ->
  logged_epochs (printed st')
  = logged_epochs (printed st) ++ (if (3 <=? e)%nat then [e] else []).
Proof.
  unfold epoch_body.
  destruct (if (3 <=? e)%nat then time (lworld st) else (0, lworld st))
    as [t0 w0].
  destruct (GCN_forward _ _ _ _) as [[pred w1] |]; cbn [rbind]; [| discriminate].
  destruct (loss_fcn _ _ _) as [loss |]; cbn [rbind]; [| discriminate].
  destruct (trainer_step _ _ _ _) as [theta' trainer'].
  destruct (3 <=? e)%nat.
  - destruct (time _) as [t1 w2].
    destruct (first_entry loss) as [l0 |]; cbn [rbind]; [| discriminate].
    intros [= <-]; cbn [printed].
    unfold logged_epochs; rewrite omap_app; reflexivity.
  - intros [= <-]; cbn [printed]; rewrite app_nil_r; reflexivity.
Qed.

Lemma for_each_logged (model : GCN) (feats : tensor) (labs : list nat)
      (mask : vector) (n_edges : nat) (es : list nat) :
  forall st st',
    for_each (epoch_body model feats labs mask n_edges) es st = Ok st' ->
    logged_epochs (printed st')
    = logged_epochs (printed st) ++ List.filter (fun e => (3 <=? e)%nat) es.
Proof.
  induction es as [| e es IH]; intros st st' H; cbn in H.
  - injection H as <-; rewrite app_nil_r; reflexivity.
  - destruct (epoch_body _ _ _ _ _ st e) as [st1 |] eqn:E1; cbn [rbind] in H;
      [| discriminate].
    rewrite (IH _ _ H), (epoch_body_logged _ _ _ _ _ _ _ _ E1).
    rewrite <- app_assoc; f_equal.
    cbn [List.filter]; destruct (3 <=? e)%nat; reflexivity.
Qed.

Lemma filter_from_3 (n : nat) :
  List.filter (fun e => (3 <=? e)%nat) (seq 0 n) = seq 3 (n - 3).
Proof.
  assert (H : forall k a, (3 <= a)%nat ->
              List.filter (fun e => (3 <=? e)%nat) (seq a k) = seq a k).
  { induction k as [| k IH]; intros a Ha; cbn [seq List.filter];
      [reflexivity |].
    destruct (Nat.leb_spec 3 a); [| lia].
    rewrite IH by lia; reflexivity. }
  destruct n as [| [| [| n]]]; try reflexivity.
  replace (S (S (S n)) - 3)%nat with n by lia.
  change (seq 0 (S (S (S n)))) with (0 :: 1 :: 2 :: seq 3 n)%nat.
  cbn [List.filter Nat.leb]; apply H; lia.
Qed.

End Main.

(* ===================================================================== *)
(** * Properties: the loss of the training loop *)
(* ===================================================================== *)

Section Loss.

Lemma rsum_scale (a : R) (l : list R) :
  rsum (map (fun m => a * m) l) = a * rsum l.
Proof.
  induction l as [| m l IH]; cbn [map].
  - cbn; lra.
  - rewrite !rsum_cons, IH; lra.
Qed.

Lemma mean_scale (a : R) (l : list R) :
  mean (map (fun m => a * m) l) = a * mean l.
Proof.
  unfold mean; rewrite rsum_scale, length_map; unfold Rdiv; lra.
Qed.

(** A one-entry row times a row: the entry multiplies every entry. *)
Lemma bzip_scalar_l (a : R) (ms : list R) :
  bzip (fun x y => Ok (x * y)) [a] ms = Ok (map (fun m => a * m) ms).
Proof.
  unfold bzip.
  destruct ms as [| m [| m' ms]]; cbn [length Nat.eqb]; try reflexivity.
  apply mapM_total, List.Forall_forall; reflexivity.
Qed.

Lemma mapM_outer (l ms : list R) :
  mapM (fun x => bzip (fun x y => Ok (x * y)) x ms) (map (fun c => [c]) l)
  = Ok (map (fun a => map (fun m => a * m) ms) l).
Proof.
  induction l as [| a l IH]; cbn [map mapM]; [reflexivity |].
  rewrite bzip_scalar_l; cbn [rbind]; rewrite IH; reflexivity.
Qed.

(** An [(n, 1)] array times one row of any length [k]: the [(n, k)]
    array of all products. *)
Lemma broadcast_mul_outer (v ms : list R) :
  broadcast_mul (expand_dims1 v) (as_row ms)
  = Ok (map (fun a => map (fun m => a * m) ms) v).
Proof.
  unfold broadcast_mul, as_row, expand_dims1, bzip at 1.
  destruct v as [| a [| a' v]].
  - reflexivity.
  - cbn; rewrite bzip_scalar_l; reflexivity.
  - cbn [map length Nat.eqb].
    apply (mapM_outer (a :: a' :: v) ms).
Qed.

Lemma pick_row_log_softmax (x : list R) (l : nat) :
  x <> [] ->
  pick_row (log_softmax_row x) l = Ok (- spec.cross_entropy x l).
Proof.
  intros Hx; unfold pick_row, log_softmax_row, spec.cross_entropy.
  rewrite length_map, list_lookup_fmap.
  assert (Hi : (Nat.min l (length x - 1) < length x)%nat).
  { destruct x; [contradiction | cbn; lia]. }
  destruct (lookup_lt_is_Some_2 x _ Hi) as [a Ha].
  rewrite Ha; cbn.
  rewrite (nth_lookup_Some _ _ 0 _ Ha); f_equal; lra.
Qed.

(** The loss of [main], as a formula: the entry of every node is its
    cross entropy times the mean of the whole mask. *)
Lemma loss_fcn_formula (pred : tensor) (labels : list nat) (mask : vector) :
  length labels = length pred ->
  Forall (fun x => x <> []) pred ->
  loss_fcn pred labels mask
  = Ok (zip_with (fun x l => spec.cross_entropy x l * mean mask) pred labels).
Proof.
  intros Hlen Hrows; unfold loss_fcn, SoftmaxCELoss, pick_keepdims, pick.
  unfold log_softmax; rewrite length_map, Hlen, Nat.eqb_refl.
  assert (Hz : zipM pick_row (map log_softmax_row pred) labels
               = Ok (zip_with (fun x l => - spec.cross_entropy x l) pred labels)).
  { clear Hlen; revert labels.
    induction Hrows as [| x pred Hx _ IH]; intros [| l labels]; cbn;
      try reflexivity.
    rewrite (pick_row_log_softmax x l Hx); cbn.
    rewrite IH; reflexivity. }
  rewrite Hz; cbn [rbind].
  assert (Hneg : forall v, neg (expand_dims1 v) = expand_dims1 (map Ropp v)).
  { intros v; unfold neg, expand_dims1; rewrite !map_map; reflexivity. }
  rewrite Hneg, broadcast_mul_outer; cbn [rbind].
  unfold mean_exclude_batch; f_equal.
  rewrite !map_map.
  clear; revert labels; induction pred as [| x pred IH]; intros [| l labels];
    cbn; try reflexivity.
  rewrite mean_scale, IH; f_equal.
  unfold Rdiv; lra.
Qed.

(** With a weight of shape [(n, 1)], the library weighs every node by
    its own entry: the masked loss of the specification. *)
Lemma SoftmaxCELoss_per_node (pred : tensor) (labels : list nat) (mask : vector) :
  length labels = length pred ->
  length mask = length pred ->
  Forall (fun x => x <> []) pred ->
  SoftmaxCELoss pred labels (expand_dims1 mask)
  = Ok (zip_with (fun ce m => ce * m)
                 (zip_with spec.cross_entropy pred labels) mask).
Proof.
  intros Hlen Hmask Hrows; unfold SoftmaxCELoss, pick_keepdims, pick.
  unfold log_softmax; rewrite length_map, Hlen, Nat.eqb_refl.
  assert (Hz : zipM pick_row (map log_softmax_row pred) labels
               = Ok (zip_with (fun x l => - spec.cross_entropy x l) pred labels)).
  { clear Hlen Hmask; revert labels.
    induction Hrows as [| x pred Hx _ IH]; intros [| l labels]; cbn;
      try reflexivity.
    rewrite (pick_row_log_softmax x l Hx); cbn.
    rewrite IH; reflexivity. }
  rewrite Hz; cbn [rbind].
  assert (Hneg : forall v, neg (expand_dims1 v) = expand_dims1 (map Ropp v)).
  { intros v; unfold neg, expand_dims1; rewrite !map_map; reflexivity. }
  rewrite Hneg.
  assert (Hl : length (expand_dims1
                 (map Ropp (zip_with (fun x l => - spec.cross_entropy x l)
                                     pred labels)))
               = length mask).
  { unfold expand_dims1; rewrite !length_map, length_zip_with; lia. }
  rewrite (broadcast_mul_normalize _ _ Hl); cbn [rbind].
  unfold mean_exclude_batch, spec.normalize, expand_dims1; f_equal.
  clear; revert labels mask.
  induction pred as [| x pred IH]; intros [| l labels] [| m mask];
    cbn; try reflexivity.
  rewrite IH; f_equal.
  unfold mean; cbn; field.
Qed.

End Loss.

(* ===================================================================== *)
(** * The accuracy and the loss against the specification's wording *)
(* ===================================================================== *)

Section AgainstSpec.

Import example.

(** C1, as the code has it: the accuracy is the mean, over all the rows
    of the prediction matrix (no mask takes part), of the probability
    that the softmax of the row's logits, scaled by 100, gives to the
    row's label; [main] returns this value. *)
Theorem accuracy_is_mean_label_probability
        (pred : tensor) (labels : list nat) :
  length labels = length pred ->
  Forall (fun x => x <> []) pred ->
  accuracy pred labels
  = Ok (rsum (zip_with spec.label_probability pred labels)
        / INR (length pred))
  /\ forall a, accuracy pred labels = Ok a -> mean [a] = a.
Proof.
  intros Hlen Hrows; split.
  - apply accuracy_formula; assumption.
  - intros a _; apply mean_singleton.
Qed.

Lemma accuracy_is_mean_label_probability_witness :
  accuracy logits2 [0; 1]%nat
  = Ok (rsum (zip_with spec.label_probability logits2 [0; 1]%nat)
        / INR (length logits2)).
Proof.
  apply (accuracy_is_mean_label_probability logits2 [0; 1]%nat).
  - reflexivity.
  - repeat constructor; discriminate.
Defined.

Lemma selected_1 : spec.selected 1 = true.
Proof. unfold spec.selected; destruct (Req_dec_T 1 0); [lra | reflexivity]. Qed.

Lemma selected_0 : spec.selected 0 = false.
Proof. unfold spec.selected; destruct (Req_dec_T 0 0); [reflexivity | lra]. Qed.

Lemma argmax_1_0 : spec.argmax [1; 0] = 0%nat.
Proof. cbn; destruct (Rlt_dec 1 0); [lra | reflexivity]. Qed.

Lemma argmax_0_0 : spec.argmax [0; 0] = 0%nat.
Proof. cbn; destruct (Rlt_dec 0 0); [lra | reflexivity]. Qed.

Lemma accuracy_logits2 : accuracy logits2 [0; 1]%nat = Ok (1 / 2).
Proof.
  rewrite accuracy_formula; [| reflexivity | repeat constructor; discriminate].
  f_equal; unfold logits2, spec.label_probability; cbn.
  pose proof (exp_pos (1 * 100)); pose proof (exp_pos (0 * 100)).
  field; lra.
Qed.

Lemma masked_accuracy_logits2 :
  spec.masked_accuracy logits2 [0; 1]%nat mask2 = 1.
Proof.
  unfold spec.masked_accuracy, logits2, mask2.
  cbn [combine List.filter fst snd].
  rewrite selected_1, selected_0; cbn [List.filter fst snd].
  rewrite argmax_1_0; cbn; field.
Qed.

Lemma accuracy_tie : accuracy [[0; 0]] [1]%nat = Ok (1 / 2).
Proof.
  rewrite accuracy_formula; [| reflexivity | repeat constructor; discriminate].
  f_equal; unfold spec.label_probability; cbn.
  pose proof (exp_pos (0 * 100)).
  field; lra.
Qed.

Lemma masked_accuracy_tie : spec.masked_accuracy [[0; 0]] [1]%nat [1] = 0.
Proof.
  unfold spec.masked_accuracy.
  cbn [combine List.filter fst snd].
  rewrite selected_1; cbn [List.filter fst snd].
  rewrite argmax_0_0; cbn; field.
Qed.

(** C1, as the specification has it, fails.  A node outside the mask
    counts: with the first node right, the second wrong and only the
    first selected, the fraction is 1 and the code gives 1/2.  And a
    prediction is not counted as right or wrong: on a single selected
    node with equal logits the fraction is 0 and the code gives 1/2. *)
Lemma accuracy_is_not_masked_fraction :
  accuracy logits2 [0; 1]%nat
  <> Ok (spec.masked_accuracy logits2 [0; 1]%nat mask2)
  /\ accuracy [[0; 0]] [1]%nat
     <> Ok (spec.masked_accuracy [[0; 0]] [1]%nat [1]).
Proof.
  rewrite accuracy_logits2, masked_accuracy_logits2.
  rewrite accuracy_tie, masked_accuracy_tie.
  split; intros [= H]; lra.
Qed.

Lemma mean_mask2 : mean mask2 = 1 / 2.
Proof. unfold mean, mask2; cbn; field. Qed.

(** C7 on a concrete input: two nodes, the first one in the mask.  The
    entry of the second node in the loss is not 0, and the loss changes
    with the label of the second node.  With the same mask given as an
    [(n, 1)] array the library gives the second node the weight 0 and
    the loss does not change. *)
Theorem loss_depends_on_unmasked_node :
  loss_fcn logits2' [0; 0]%nat mask2
  = Ok [spec.cross_entropy [0; 0] 0 * (1 / 2);
        spec.cross_entropy [1; 0] 0 * (1 / 2)]
  /\ loss_fcn logits2' [0; 1]%nat mask2
     = Ok [spec.cross_entropy [0; 0] 0 * (1 / 2);
           spec.cross_entropy [1; 0] 1 * (1 / 2)]
  /\ spec.cross_entropy [1; 0] 1 * (1 / 2) <> 0
  /\ loss_fcn logits2' [0; 0]%nat mask2 <> loss_fcn logits2' [0; 1]%nat mask2
  /\ SoftmaxCELoss logits2' [0; 0]%nat (expand_dims1 mask2)
     = SoftmaxCELoss logits2' [0; 1]%nat (expand_dims1 mask2).
Proof.
  assert (H0 : loss_fcn logits2' [0; 0]%nat mask2
               = Ok [spec.cross_entropy [0; 0] 0 * (1 / 2);
                     spec.cross_entropy [1; 0] 0 * (1 / 2)]).
  { rewrite loss_fcn_formula;
      [| reflexivity | repeat constructor; discriminate].
    rewrite mean_mask2; reflexivity. }
  assert (H1 : loss_fcn logits2' [0; 1]%nat mask2
               = Ok [spec.cross_entropy [0; 0] 0 * (1 / 2);
                     spec.cross_entropy [1; 0] 1 * (1 / 2)]).
  { rewrite loss_fcn_formula;
      [| reflexivity | repeat constructor; discriminate].
    rewrite mean_mask2; reflexivity. }
  assert (Hln : 0 < ln (rsum (map exp [1; 0]))).
  { assert (Hs : 1 < rsum (map exp [1; 0])).
    { change (rsum (map exp [1; 0])) with (exp 1 + (exp 0 + 0)).
      rewrite exp_0; pose proof (exp_pos 1); lra. }
    pose proof (ln_increasing 1 _ Rlt_0_1 Hs) as Hl.
    rewrite ln_1 in Hl; exact Hl. }
  split; [exact H0 |].
  split; [exact H1 |].
  split.
  { unfold spec.cross_entropy; cbn [length Nat.sub Nat.min nth].
    intros H; lra. }
  split.
  { rewrite H0, H1; intros [= H]; revert H.
    unfold spec.cross_entropy; cbn [length Nat.sub Nat.min nth].
    intros H; lra. }
  rewrite !SoftmaxCELoss_per_node;
    try reflexivity; try (repeat constructor; discriminate).
  unfold mask2, logits2'; cbn [zip_with].
  rewrite !Rmult_0_r; reflexivity.
Qed.

End AgainstSpec.

(* ===================================================================== *)
(** * Concrete runs *)
(* ===================================================================== *)

Section Runs.

Import example.

Lemma norm_two_nodes :
  reals_of (norm_coefficients two_nodes)
  = Ok [Rpower 1 (-0.5); Rpower 1 (-0.5)].
Proof.
  unfold norm_coefficients; cbn.
  rewrite !power_pos by lra; reflexivity.
Qed.

(** Runs [main] on the example: the degrees are turned into
    coefficients by the lemma above, the rest is evaluated. *)
Ltac run_main :=
  unfold main;
  cbn [load_dataset runtime0 args0 data_args args_self_loop graph data0
       features labels train_mask num_labels];
  rewrite norm_two_nodes; generalize (Rpower 1 (-0.5)); intros c;
  vm_compute.


Lemma main_returns_5 : exists r, main (args0 5 None) world0 = Ok r.
Proof. run_main; eexists; reflexivity. Qed.

Lemma layer0_returns :
  exists out w', GCNLayer_forward layer0 params0 world1 h0 = Ok (out, w').
Proof. vm_compute; eexists _, _; reflexivity. Qed.

Lemma forward_is_normalized_aggregation_witness :
  GCNLayer_forward layer0 params0 world1 h0
  = Ok (spec.nonlinearity (activation layer0)
          (spec.normalize [1; 1]
             (spec.aggregate (g layer0)
                (spec.normalize [1; 1]
                   (spec.affine (dense layer0) params0
                      (fst (dropout_stage layer0 world1 h0)))))),
        with_ndata (snd (dropout_stage layer0 world1 h0))
                   (delete "h" (ndata world1))).
Proof.
  apply (forward_is_normalized_aggregation
           layer0 params0 world1 h0 [1; 1] 1).
  - reflexivity.
  - reflexivity.
  - repeat split; repeat constructor.
  - split; [reflexivity | repeat constructor].
Defined.

Lemma forward_restores_ndata_witness :
  exists out w',
    GCNLayer_forward layer0 params0 world1 h0 = Ok (out, w')
    /\ ndata w' !! "h" = None
    /\ ndata w' !! "norm" = ndata world1 !! "norm".
Proof.
  destruct layer0_returns as (out & w' & H).
  exists out, w'; split; [exact H |].
  destruct (forward_restores_ndata layer0 params0 world1 w' h0 out H)
    as (Hh & Hn & _).
  split; assumption.
Defined.

Lemma GCN_layers_chain_witness :
  length (layers (GCN_init two_nodes 1433 16 7 2 (Some relu) 0.5%Q None))
  = 3%nat
  /\ param_shapes
       (layers (GCN_init two_nodes 1433 16 7 2 (Some relu) 0.5%Q None)) 1433
     = [(16, 1433); (16, 16); (7, 16)]%nat.
Proof.
  destruct (GCN_layers_chain (RT := runtime0) two_nodes 1433 16 7 2
              (Some relu) 0.5%Q None ltac:(lia))
    as (_ & Hlen & Hshapes & _).
  split; [exact Hlen | exact Hshapes].
Defined.

Lemma norm_finite_when_in_degree_positive_witness :
  Forall spec.finite_nonneg (norm_coefficients two_nodes).
Proof.
  apply (norm_finite_when_in_degree_positive two_nodes).
  intros v Hv; cbn in Hv.
  destruct v as [| [| v]]; [cbn; lia | cbn; lia | lia].
Defined.

(** C4, as the specification has it, fails: a run of one epoch returns
    and has printed no line for its epoch 0. *)
Lemma first_epoch_prints_no_line :
  exists acc out w',
    main (args0 1 None) world0 = Ok (acc, out, w')
    /\ ~ In 0%nat (logged_epochs out).
Proof.
  run_main.
  eexists _, _, _; split; [reflexivity |].
  cbn; tauto.
Qed.

End Runs.

(* ===================================================================== *)
(** * Further properties: self-loops *)
(* ===================================================================== *)

Section SelfLoops.

Lemma add_edge_nodes (gr : DGLGraph) (e : nat * nat) :
  number_of_nodes (add_edge gr e) = number_of_nodes gr.
Proof. unfold add_edge; destruct (has_edge gr e); reflexivity. Qed.

Lemma add_edges_from_nodes (es : list (nat * nat)) (gr : DGLGraph) :
  number_of_nodes (add_edges_from gr es) = number_of_nodes gr.
Proof.
  unfold add_edges_from; revert gr; induction es as [| e es IH]; intros gr; cbn.
  - reflexivity.
  - rewrite IH; apply add_edge_nodes.
Qed.

Lemma has_edge_In (gr : DGLGraph) (e : nat * nat) :
  has_edge gr e = true <-> In e (edges gr).
Proof.
  unfold has_edge; rewrite existsb_exists; split.
  - intros [[u v] [Hin He]]; destruct e as [u' v']; cbn in He.
    apply andb_true_iff in He as [Hu Hv].
    apply Nat.eqb_eq in Hu, Hv; subst; exact Hin.
  - intros Hin; exists e; split; [exact Hin |].
    rewrite !Nat.eqb_refl; reflexivity.
Qed.

Lemma add_edge_edges (gr : DGLGraph) (e e' : nat * nat) :
  In e' (edges (add_edge gr e)) <-> In e' (edges gr) \/ e' = e.
Proof.
  unfold add_edge; destruct (has_edge gr e) eqn:He; cbn.
  - apply has_edge_In in He; split; [auto | intros [H | ->]; assumption].
  - rewrite in_app_iff; cbn; intuition.
Qed.

Lemma add_edges_from_edges (es : list (nat * nat)) (gr : DGLGraph) (e' : nat * nat) :
  In e' (edges (add_edges_from gr es)) <-> In e' (edges gr) \/ In e' es.
Proof.
  unfold add_edges_from; revert gr; induction es as [| e es IH]; intros gr; cbn.
  - tauto.
  - rewrite IH, add_edge_edges; intuition.
Qed.

(** Adding edges that are all present changes nothing. *)
Lemma add_edges_from_present (es : list (nat * nat)) (gr : DGLGraph) :
  (forall e, In e es -> In e (edges gr)) -> add_edges_from gr es = gr.
Proof.
  unfold add_edges_from; induction es as [| e es IH]; intros H; cbn.
  - reflexivity.
  - assert (He : add_edge gr e = gr).
    { unfold add_edge.
      replace (has_edge gr e) with true; [reflexivity |].
      symmetry; apply has_edge_In, H; left; reflexivity. }
    rewrite He; apply IH; intros e' He'; apply H; right; exact He'.
Qed.

Lemma in_degree_pos (gr : DGLGraph) (u v : nat) :
  In (u, v) (edges gr) -> (1 <= in_degree gr v)%nat.
Proof.
  intros H; unfold in_degree; apply degree_pos_In; exists (u, v); auto.
Qed.

Lemma coefficients_in_unit_interval (gr : DGLGraph) :
  (forall v, (v < number_of_nodes gr)%nat -> (1 <= in_degree gr v)%nat) ->
  Forall (fun c => exists r, c = Finite r /\ 0 < r <= 1) (norm_coefficients gr).
Proof.
  intros Hdeg; apply Forall_lookup; intros v c Hc.
  assert (Hv : (v < number_of_nodes gr)%nat).
  { rewrite <- norm_coefficients_length; eapply lookup_lt_Some; eauto. }
  rewrite (norm_coefficients_lookup _ _ Hv) in Hc; injection Hc as <-.
  apply power_degree, Hdeg, Hv.
Qed.

Lemma reals_of_finite (cs : list xfloat) :
  Forall (fun c => exists r, c = Finite r /\ 0 < r <= 1) cs ->
  exists norm, reals_of cs = Ok norm
               /\ length norm = length cs
               /\ Forall (fun r => 0 < r <= 1) norm.
Proof.
  unfold reals_of.
  induction 1 as [| c cs (r & -> & Hr) _ (norm & Hn & Hl & Hb)]; cbn.
  - exists []; repeat split; constructor.
  - rewrite Hn; cbn; exists (r :: norm); repeat split; cbn; auto.
Qed.

(** X1: with [--self-loop] every node has an incoming edge, whatever the data
    graph: every normalization coefficient is a real number in (0, 1],
    and the graph keeps its nodes. *)
Theorem self_loops_make_norm_finite (gr : DGLGraph) :
  number_of_nodes (with_self_loops gr) = number_of_nodes gr
  /\ (forall v, (v < number_of_nodes gr)%nat ->
                In (v, v) (edges (with_self_loops gr))
                /\ (1 <= in_degree (with_self_loops gr) v)%nat)
  /\ Forall spec.finite_nonneg (norm_coefficients (with_self_loops gr))
  /\ exists norm,
       reals_of (norm_coefficients (with_self_loops gr)) = Ok norm
       /\ length norm = number_of_nodes gr
       /\ Forall (fun r => 0 < r <= 1) norm.
Proof.
  assert (Hn : number_of_nodes (with_self_loops gr) = number_of_nodes gr)
    by apply add_edges_from_nodes.
  assert (Hloop : forall v, (v < number_of_nodes gr)%nat ->
                            In (v, v) (edges (with_self_loops gr))).
  { intros v Hv; unfold with_self_loops.
    apply add_edges_from_edges; right.
    apply in_map_iff; exists v; split; [reflexivity |].
    apply in_seq; lia. }
  assert (Hdeg : forall v, (v < number_of_nodes (with_self_loops gr))%nat ->
                           (1 <= in_degree (with_self_loops gr) v)%nat).
  { intros v Hv; rewrite Hn in Hv.
    eapply in_degree_pos, Hloop, Hv. }
  pose proof (coefficients_in_unit_interval _ Hdeg) as HF.
  split; [exact Hn |].
  split.
  { intros v Hv; split; [apply Hloop, Hv | apply Hdeg; rewrite Hn; exact Hv]. }
  split.
  { eapply Forall_impl; [exact HF |].
    intros c (r & -> & Hr); exists r; split; [reflexivity | lra]. }
  destruct (reals_of_finite _ HF) as (norm & Hr & Hl & Hb).
  exists norm; repeat split; try assumption.
  rewrite Hl, norm_coefficients_length; exact Hn.
Qed.

Lemma has_edge_add_other (gr : DGLGraph) (e e' : nat * nat) :
  e' <> e -> has_edge (add_edge gr e) e' = has_edge gr e'.
Proof.
  intros Hne.
  destruct (has_edge gr e') eqn:H.
  - apply has_edge_In, add_edge_edges; left; apply has_edge_In; exact H.
  - destruct (has_edge (add_edge gr e) e') eqn:H'; [| reflexivity].
    apply has_edge_In, add_edge_edges in H' as [Hin | ->]; [| contradiction].
    apply has_edge_In in Hin; congruence.
Qed.

(** Adding the loops of distinct nodes adds one edge for each node that
    has no loop yet. *)
Lemma add_loops_count (l : list nat) :
  NoDup l ->
  forall gr,
    number_of_edges (add_edges_from gr (map (fun i => (i, i)) l))
    = (number_of_edges gr
       + length (List.filter (fun i => negb (has_edge gr (i, i))) l))%nat.
Proof.
  induction 1 as [| i l Hi Hl IH]; intros gr.
  - cbn; lia.
  - cbn [map]; unfold add_edges_from; cbn [fold_left].
    fold (add_edges_from (add_edge gr (i, i)) (map (fun i => (i, i)) l)).
    rewrite IH.
    assert (Hf : List.filter
                   (fun j => negb (has_edge (add_edge gr (i, i)) (j, j))) l
                 = List.filter (fun j => negb (has_edge gr (j, j))) l).
    { apply List.filter_ext_in; intros j Hj.
      rewrite has_edge_add_other; [reflexivity |].
      intros [= ->]; apply Hi, list_elem_of_In; exact Hj. }
    rewrite Hf; cbn [List.filter].
    unfold add_edge, number_of_edges.
    destruct (has_edge gr (i, i)); cbn [negb length edges].
    + reflexivity.
    + rewrite length_app; cbn; lia.
Qed.

(** X2: the self-loops as a change of the edge set: the edges afterwards
    are the edges of the data graph and the loops [(i, i)] of its nodes;
    the number of edges grows by the number of nodes that had no loop; a
    well-formed graph stays well formed; and adding the loops a second
    time changes nothing. *)
Theorem self_loops_once (gr : DGLGraph) :
  (forall e,
      In e (edges (with_self_loops gr))
      <-> In e (edges gr)
          \/ (fst e = snd e /\ (fst e < number_of_nodes gr)%nat))
  /\ number_of_edges (with_self_loops gr)
     = (number_of_edges gr
        + length (List.filter (fun i => negb (has_edge gr (i, i)))
                              (seq 0 (number_of_nodes gr))))%nat
  /\ (wf_graph gr -> wf_graph (with_self_loops gr))
  /\ with_self_loops (with_self_loops gr) = with_self_loops gr.
Proof.
  assert (Hmem : forall e,
             In e (edges (with_self_loops gr))
             <-> In e (edges gr)
                 \/ (fst e = snd e /\ (fst e < number_of_nodes gr)%nat)).
  { intros e; unfold with_self_loops; rewrite add_edges_from_edges.
    rewrite in_map_iff; split; (intros [H | H]; [left; exact H | right]).
    - destruct H as [i [<- Hi]]; apply in_seq in Hi; cbn; lia.
    - destruct e as [u v], H as [Huv Hu]; cbn in Huv, Hu; subst v.
      exists u; split; [reflexivity | apply in_seq; lia]. }
  assert (Hn : number_of_nodes (with_self_loops gr) = number_of_nodes gr)
    by apply add_edges_from_nodes.
  split; [exact Hmem |].
  split; [apply add_loops_count, NoDup_seq |].
  split.
  - intros Hwf; unfold wf_graph in *; rewrite Hn.
    rewrite List.Forall_forall in Hwf |- *.
    intros e He; apply Hmem in He as [He | [Heq Hlt]].
    + apply Hwf, He.
    + lia.
  - unfold with_self_loops at 1.
    apply add_edges_from_present; intros e He.
    apply in_map_iff in He as [i [<- Hi]]; apply in_seq in Hi.
    rewrite Hn in Hi.
    apply Hmem; right; cbn; lia.
Qed.

End SelfLoops.

(* ===================================================================== *)
(** * Further properties: the layer and the model *)
(* ===================================================================== *)

Section ModelFurther.

Context {RT : Runtime}.

(** X3: [--n-layers 1] or less: the loop over [range(n_layers - 1)] does not
    run, and the model is the input layer followed by the output layer,
    the same for every such value. *)
Theorem no_hidden_layer_below_two
        (gr : DGLGraph) (in_feats n_hidden n_classes : nat) (n_layers : Z)
        (act : option (tensor -> tensor)) (p : Q) (nm : option string) :
  (n_layers <= 1)%Z ->
  layers (GCN_init gr in_feats n_hidden n_classes n_layers act p nm)
  = [GCNLayer_init gr in_feats n_hidden act p true;
     GCNLayer_init gr n_hidden n_classes None p true]
  /\ GCN_init gr in_feats n_hidden n_classes n_layers act p nm
     = GCN_init gr in_feats n_hidden n_classes 1 act p nm.
Proof.
  intros Hn.
  assert (Hk : Z.to_nat (n_layers - 1) = 0%nat) by lia.
  split.
  - rewrite GCN_init_layers, Hk; reflexivity.
  - unfold GCN_init; rewrite Hk; reflexivity.
Qed.

Lemma Dropout_world (w : world) (h : tensor) (p : Q) :
  training (snd (Dropout w h p)) = training w
  /\ ticks (snd (Dropout w h p)) = ticks w
  /\ (training w = false -> Dropout w h p = (h, w)).
Proof.
  unfold Dropout; destruct (training w) eqn:Ht.
  - destruct (dropout_train (rng w) p h); cbn; repeat split; auto; discriminate.
  - repeat split; auto.
Qed.

(** What a layer does to the world besides the frame: the training mode
    and the clock are left alone, and outside training mode so is the
    random generator. *)
Lemma forward_world (self : GCNLayer) (p : DenseParams) (w w' : world)
      (h out : tensor) :
  GCNLayer_forward self p w h = Ok (out, w') ->
  training w' = training w
  /\ ticks w' = ticks w
  /\ (training w = false -> rng w' = rng w).
Proof.
  unfold GCNLayer_forward.
  assert (Hd : training (snd (dropout_stage self w h)) = training w
               /\ ticks (snd (dropout_stage self w h)) = ticks w
               /\ (training w = false ->
                   rng (snd (dropout_stage self w h)) = rng w)).
  { unfold dropout_stage; destruct (truthy (dropout self)); [| auto].
    destruct (Dropout_world w h (dropout self)) as (H1 & H2 & H3).
    repeat split; auto.
    intros Hw; rewrite (H3 Hw); reflexivity. }
  unfold dropout_stage in Hd.
  destruct (if truthy (dropout self) then _ else _) as [h1 w1]; cbn in Hd.
  destruct (Dense_forward _ p h1) as [h2 |]; cbn; [| discriminate].
  destruct (frame_get (ndata w1) "norm") as [nm |]; cbn; [| discriminate].
  destruct (broadcast_mul h2 nm) as [h3 |]; cbn; [| discriminate].
  destruct (frame_set _ _ _ h3) as [fr1 |]; cbn; [| discriminate].
  destruct (update_all _ fr1 _ _) as [fr2 |]; cbn; [| discriminate].
  destruct (frame_pop fr2 _) as [[h4 fr3] |]; cbn; [| discriminate].
  destruct (frame_get fr3 "norm") as [nm' |]; cbn; [| discriminate].
  destruct (broadcast_mul h4 nm') as [h5 |]; cbn; [| discriminate].
  intros [= _ <-]; cbn; exact Hd.
Qed.

Lemma run_layers_world (ls : list GCNLayer) :
  forall (theta : list DenseParams) (w w' : world) (h out : tensor),
    run_layers ls theta w h = Ok (out, w') ->
    training w' = training w
    /\ ticks w' = ticks w
    /\ (training w = false -> rng w' = rng w)
    /\ (forall k : string, k <> "h" -> ndata w' !! k = ndata w !! k)
    /\ (ls <> [] -> ndata w' = delete "h" (ndata w)).
Proof.
  induction ls as [| l ls IH]; intros theta w w' h out H; cbn in H.
  - injection H as _ <-; repeat split; auto; contradiction.
  - destruct theta as [| p theta]; [discriminate |].
    destruct (GCNLayer_forward l p w h) as [[h1 w1] |] eqn:E1; cbn in H;
      [| discriminate].
    destruct (forward_world _ _ _ _ _ _ E1) as (Ht & Hk & Hr).
    pose proof (forward_frame _ _ _ _ _ _ E1) as Hf.
    destruct (IH _ _ _ _ _ H) as (Ht' & Hk' & Hr' & Hn' & Hd').
    split; [congruence |].
    split; [congruence |].
    split; [intros Hw; rewrite Hr', Hr; congruence |].
    split.
    + intros k Hk0; rewrite (Hn' k Hk0), Hf.
      apply lookup_delete_ne; congruence.
    + intros _; destruct ls as [| l' ls'].
      * cbn in H; injection H as _ <-; exact Hf.
      * rewrite Hd' by discriminate.
        rewrite Hf, delete_delete_eq; reflexivity.
Qed.

(** X4: [GCN.forward] and the world: when the model returns, the frame is the
    one before the call without ['h'] (so ['norm'] is still there), the
    training mode and the clock are as before, and outside
    [autograd.record()] no random number has been drawn. *)
Theorem model_forward_restores_world
        (gr : DGLGraph) (in_feats n_hidden n_classes : nat) (n_layers : Z)
        (act : option (tensor -> tensor)) (p : Q) (nm : option string)
        (theta : list DenseParams) (w w' : world) (x out : tensor) :
  GCN_forward (GCN_init gr in_feats n_hidden n_classes n_layers act p nm)
              theta w x = Ok (out, w') ->
  ndata w' = delete "h" (ndata w)
  /\ training w' = training w
  /\ ticks w' = ticks w
  /\ (training w = false -> w' = with_ndata w (delete "h" (ndata w))).
Proof.
  unfold GCN_forward; intros H.
  destruct (run_layers_world _ _ _ _ _ _ H) as (Ht & Hk & Hr & _ & Hd).
  assert (Hne : layers (GCN_init gr in_feats n_hidden n_classes n_layers
                                 act p nm) <> []).
  { rewrite GCN_init_layers; discriminate. }
  specialize (Hd Hne).
  repeat split; auto.
  intros Hw; specialize (Hr Hw).
  destruct w' as [fr r t k]; cbn in *; subst.
  unfold with_ndata; rewrite Hw; reflexivity.
Qed.

End ModelFurther.

(* ===================================================================== *)
(** * Further properties: shapes and errors of the layer *)
(* ===================================================================== *)

Section Shapes.

Context {RT : Runtime}.

Lemma zipM_length {A B C} (f : A -> B -> result C) :
  forall xs ys l, zipM f xs ys = Ok l ->
                  length l = Nat.min (length xs) (length ys).
Proof.
  induction xs as [| x xs IH]; intros ys l H; cbn in H.
  - injection H as <-; reflexivity.
  - destruct ys as [| y ys]; [injection H as <-; reflexivity |].
    destruct (f x y) as [c |]; cbn in H; [| discriminate].
    destruct (zipM f xs ys) as [cs |] eqn:Ez; cbn in H; [| discriminate].
    injection H as <-; cbn; f_equal; apply IH; exact Ez.
Qed.

Lemma broadcast_mul_rows (a b out : tensor) :
  length a = length b -> broadcast_mul a b = Ok out -> length out = length a.
Proof.
  intros Hl; unfold broadcast_mul, bzip at 1.
  rewrite Hl, Nat.eqb_refl; intros H.
  apply zipM_length in H; lia.
Qed.

(** A layer without nonlinearity returns one row per node. *)
Lemma forward_rows (self : GCNLayer) (p : DenseParams) (w w' : world)
      (h out : tensor) (c : vector) :
  activation self = None ->
  ndata w !! "norm" = Some (expand_dims1 c) ->
  length c = number_of_nodes (g self) ->
  GCNLayer_forward self p w h = Ok (out, w') ->
  length out = number_of_nodes (g self).
Proof.
  intros Hact Hnorm Hc; unfold GCNLayer_forward.
  pose proof (dropout_stage_ndata self w h) as Hd; unfold dropout_stage in Hd.
  destruct (if truthy (dropout self) then _ else _) as [h1 w1]; cbn in Hd.
  destruct (Dense_forward _ p h1) as [h2 |]; cbn; [| discriminate].
  unfold frame_get at 1; rewrite Hd, Hnorm; cbn.
  destruct (broadcast_mul h2 _) as [h3 |]; cbn; [| discriminate].
  unfold frame_set at 1.
  destruct (Nat.eqb (length h3) _); cbn; [| discriminate].
  unfold update_all, frame_get at 1.
  rewrite lookup_insert_eq; cbn.
  unfold frame_set at 1.
  destruct (Nat.eqb (length (copy_src_sum _ h3)) _); cbn; [| discriminate].
  unfold frame_pop; rewrite lookup_insert_eq; cbn.
  rewrite !delete_insert_eq.
  unfold frame_get.
  rewrite lookup_delete_ne by discriminate.
  rewrite Hnorm; cbn.
  destruct (broadcast_mul _ _) as [h5 |] eqn:E5; cbn; [| discriminate].
  rewrite Hact; intros [= <- _].
  apply broadcast_mul_rows in E5.
  - rewrite E5; apply copy_src_sum_length.
  - rewrite copy_src_sum_length; unfold expand_dims1.
    rewrite length_map; symmetry; exact Hc.
Qed.

(** X5: the shape of the model's output: whenever [GCN.forward] returns, with
    the frame holding the [(n, 1)] normalization of the graph's [n]
    nodes, the result has one row per node and [n_classes] columns. *)
Theorem model_output_shape
        (gr : DGLGraph) (in_feats n_hidden n_classes : nat) (n_layers : Z)
        (act : option (tensor -> tensor)) (p : Q) (nm : option string)
        (theta : list DenseParams) (w w' : world) (x out : tensor)
        (c : vector) :
  ndata w !! "norm" = Some (expand_dims1 c) ->
  length c = number_of_nodes gr ->
  GCN_forward (GCN_init gr in_feats n_hidden n_classes n_layers act p nm)
              theta w x = Ok (out, w') ->
  spec.shape_is (number_of_nodes gr) n_classes out.
Proof.
  intros Hnorm Hc Hrun.
  unfold GCN_forward in Hrun; rewrite GCN_init_layers in Hrun.
  change (?a :: ?b ++ [?l]) with ((a :: b) ++ [l]) in Hrun.
  apply run_layers_last in Hrun as (p' & w1 & h1 & Hf & Hn1).
  rewrite <- Hn1 in Hnorm.
  split.
  - apply (forward_rows _ _ _ _ _ _ c) in Hf; auto.
  - apply (forward_width _ _ _ _ _ _ c) in Hf; auto.
Qed.

(** X8: without ['norm'] in the frame a layer does not return: after the
    [Dense] block it raises [KeyError: 'norm'] (and when the [Dense]
    block raises, its error). *)
Theorem forward_without_norm_raises
        (self : GCNLayer) (p : DenseParams) (w : world) (h : tensor) :
  ndata w !! "norm" = None ->
  GCNLayer_forward self p w h
  = match Dense_forward (dense self) p (fst (dropout_stage self w h)) with
    | Ok _ => Raise (KeyError "norm")
    | Raise e => Raise e
    end.
Proof.
  intros Hnorm; unfold GCNLayer_forward.
  pose proof (dropout_stage_ndata self w h) as Hd; unfold dropout_stage in *.
  destruct (if truthy (dropout self) then _ else _) as [h1 w1].
  cbn [fst snd] in Hd |- *.
  destruct (Dense_forward (dense self) p h1) as [h2 |]; cbn [rbind];
    [| reflexivity].
  unfold frame_get; rewrite Hd, Hnorm; reflexivity.
Qed.

Lemma fc_row_error (d : Dense) (p : DenseParams) (x : list R) :
  (exists o, fc_row d p x = Ok o) \/ fc_row d p x = Raise ShapeError.
Proof.
  unfold fc_row; destruct (_ && _ && _); [left; eauto | right; reflexivity].
Qed.

Lemma mapM_raises {A B} (f : A -> result B) (e : exn) (l : list A) (x : A) :
  (forall a, (exists b, f a = Ok b) \/ f a = Raise e) ->
  In x l -> f x = Raise e -> mapM f l = Raise e.
Proof.
  intros Hf; induction l as [| a l IH]; intros Hin Hx; [destruct Hin |].
  cbn; destruct (Hf a) as [[b Hb] | Ha].
  - rewrite Hb; cbn.
    destruct Hin as [-> | Hin]; [congruence |].
    rewrite (IH Hin Hx); reflexivity.
  - rewrite Ha; reflexivity.
Qed.

(** X9: a row of the wrong width makes the layer raise a shape error. *)
Theorem forward_wrong_width_raises
        (self : GCNLayer) (p : DenseParams) (w : world) (h : tensor)
        (in_units : nat) (x : list R) :
  wf_params (dense self) in_units p ->
  (1 <= units (dense self))%nat ->
  In x (fst (dropout_stage self w h)) ->
  length x <> in_units ->
  GCNLayer_forward self p w h = Raise ShapeError.
Proof.
  intros (Hw & Hrows & Hb) Hu Hin Hx; unfold GCNLayer_forward.
  unfold dropout_stage in Hin.
  destruct (if truthy (dropout self) then _ else _) as [h1 w1]; cbn in Hin.
  assert (Hfc : fc_row (dense self) p x = Raise ShapeError).
  { unfold fc_row.
    destruct (weight p) as [| r rs] eqn:Ew; [cbn in Hw; lia |].
    inversion Hrows as [| ? ? Hr _]; subst.
    cbn [forallb].
    destruct (Nat.eqb_spec (length r) (length x)) as [He | _]; [congruence |].
    rewrite andb_false_r; reflexivity. }
  unfold Dense_forward.
  rewrite (mapM_raises _ ShapeError h1 x (fc_row_error _ _) Hin Hfc).
  reflexivity.
Qed.

Lemma forward_eval_dropout (gr : DGLGraph) (d : Dense)
      (act : option (tensor -> tensor)) (p1 p2 : Q)
      (p : DenseParams) (w : world) (h : tensor) :
  training w = false ->
  GCNLayer_forward (mkGCNLayer gr d act p1) p w h
  = GCNLayer_forward (mkGCNLayer gr d act p2) p w h.
Proof.
  intros Hw; unfold GCNLayer_forward, Dropout; cbn; rewrite Hw.
  destruct (truthy p1), (truthy p2); reflexivity.
Qed.

Lemma run_layers_eval_dropout (p2 : Q) (ls : list GCNLayer) :
  forall (theta : list DenseParams) (w : world) (h : tensor),
    training w = false ->
    run_layers (map (fun l => mkGCNLayer (g l) (dense l) (activation l) p2) ls)
               theta w h
    = run_layers ls theta w h.
Proof.
  induction ls as [| l ls IH]; intros theta w h Hw; cbn; [reflexivity |].
  destruct theta as [| p theta]; [reflexivity |].
  destruct l as [gr d act p1]; cbn [g dense activation].
  rewrite (forward_eval_dropout gr d act p2 p1 p w h Hw).
  destruct (GCNLayer_forward _ p w h) as [[h1 w1] |] eqn:E1; cbn; [| reflexivity].
  apply IH.
  destruct (forward_world _ _ _ _ _ _ E1) as (Ht & _); congruence.
Qed.

(** X7: outside [autograd.record()] - as in the forward pass that [main]
    scores - the output of the model does not depend on [--dropout]. *)
Theorem evaluation_ignores_dropout
        (gr : DGLGraph) (in_feats n_hidden n_classes : nat) (n_layers : Z)
        (act : option (tensor -> tensor)) (p1 p2 : Q) (nm : option string)
        (theta : list DenseParams) (w : world) (x : tensor) :
  training w = false ->
  GCN_forward (GCN_init gr in_feats n_hidden n_classes n_layers act p1 nm)
              theta w x
  = GCN_forward (GCN_init gr in_feats n_hidden n_classes n_layers act p2 nm)
                theta w x.
Proof.
  intros Hw; unfold GCN_forward.
  rewrite <- (run_layers_eval_dropout p2 (layers (GCN_init _ _ _ _ _ _ p1 _)))
    by exact Hw.
  f_equal.
  rewrite !GCN_init_layers; cbn [map].
  rewrite map_app, fmap_replicate; reflexivity.
Qed.

End Shapes.

(* ===================================================================== *)
(** * Further properties: the default model as a formula *)
(* ===================================================================== *)

Section TwoLayers.

Context {RT : Runtime}.

Lemma affine_shape (d : Dense) (p : DenseParams) (n in_units : nat) (x : tensor) :
  wf_params d in_units p -> spec.shape_is n in_units x ->
  spec.shape_is n (units d) (spec.affine d p x).
Proof.
  intros Hp Hx.
  pose proof (Dense_forward_affine d p n in_units x Hp Hx) as H.
  apply Dense_forward_rows in H as [Hl Hr].
  split; [rewrite Hl; apply Hx | exact Hr].
Qed.

Lemma normalize_shape (c : vector) (n d : nat) (x : tensor) :
  length c = n -> spec.shape_is n d x ->
  spec.shape_is n d (spec.normalize c x).
Proof.
  intros Hc [Hl Hr]; split.
  - unfold spec.normalize; rewrite length_zip_with; lia.
  - eapply broadcast_mul_width; [exact Hr |].
    apply broadcast_mul_normalize; lia.
Qed.

Lemma aggregate_shape (gr : DGLGraph) (d : nat) (x : tensor) :
  spec.shape_is (number_of_nodes gr) d x ->
  spec.shape_is (number_of_nodes gr) d (spec.aggregate gr x).
Proof.
  intros [Hl Hr].
  rewrite <- (copy_src_sum_aggregate gr x d Hr).
  split; [apply copy_src_sum_length |].
  destruct x as [| r x'] eqn:Ex.
  - pose proof (copy_src_sum_length gr []) as Hn.
    rewrite <- Hl in Hn; cbn in Hn.
    destruct (copy_src_sum gr []); [constructor | discriminate].
  - apply copy_src_sum_rows; [exact Hr | discriminate].
Qed.

Lemma relu_shape (n d : nat) (x : tensor) :
  spec.shape_is n d x -> spec.shape_is n d (relu x).
Proof.
  intros [Hl Hr]; split.
  - unfold relu; rewrite length_map; exact Hl.
  - unfold relu; apply Forall_fmap.
    eapply Forall_impl; [exact Hr |]; cbn; intros r Hlen.
    rewrite length_map; exact Hlen.
Qed.

Lemma propagate_shape (gr : DGLGraph) (c : vector) (d : nat) (x : tensor) :
  length c = number_of_nodes gr ->
  spec.shape_is (number_of_nodes gr) d x ->
  spec.shape_is (number_of_nodes gr) d (propagate gr c x).
Proof.
  intros Hc Hx; unfold propagate.
  apply normalize_shape, aggregate_shape, normalize_shape; assumption.
Qed.

(** X6: the model that [main] builds by default ([--n-layers 1], [relu]),
    outside training mode and on features of the right shape, computes
    [P (dense2 (relu (P (dense1 X))))], where [P] scales every row by its
    node's coefficient, sums over incoming edges and scales again; it
    leaves the world as it found it, up to the field ['h']. *)
Theorem default_model_formula
        (gr : DGLGraph) (in_feats n_hidden n_classes : nat) (dr : Q)
        (nm : option string) (p1 p2 : DenseParams) (w : world) (x : tensor)
        (c : vector) :
  training w = false ->
  ndata w !! "norm" = Some (expand_dims1 c) ->
  length c = number_of_nodes gr ->
  wf_params (mkDense n_hidden true) in_feats p1 ->
  wf_params (mkDense n_classes true) n_hidden p2 ->
  spec.shape_is (number_of_nodes gr) in_feats x ->
  GCN_forward (GCN_init gr in_feats n_hidden n_classes 1 (Some relu) dr nm)
              [p1; p2] w x
  = Ok (propagate gr c
          (spec.affine (mkDense n_classes true) p2
             (relu (propagate gr c
                      (spec.affine (mkDense n_hidden true) p1 x)))),
        with_ndata w (delete "h" (ndata w))).
Proof.
  intros Hw Hnorm Hc Hp1 Hp2 Hx.
  unfold GCN_forward; rewrite GCN_init_layers.
  change (Z.to_nat (1 - 1)) with 0%nat; cbn [replicate app run_layers].
  set (l1 := GCNLayer_init gr in_feats n_hidden (Some relu) dr true).
  set (l2 := GCNLayer_init gr n_hidden n_classes None dr true).
  pose proof (forward_formula l1 p1 w x c in_feats Hnorm Hc Hp1) as H1.
  rewrite (dropout_stage_eval l1 w x Hw) in H1; cbn [fst snd] in H1.
  rewrite (H1 Hx); cbn [rbind].
  set (w1 := with_ndata w (delete "h" (ndata w))).
  set (x1 := spec.nonlinearity (activation l1) _).
  assert (Hw1 : training w1 = false) by exact Hw.
  assert (Hnorm1 : ndata w1 !! "norm" = Some (expand_dims1 c)).
  { unfold w1; cbn; rewrite lookup_delete_ne by discriminate; exact Hnorm. }
  assert (Hx1 : spec.shape_is (number_of_nodes gr) n_hidden x1).
  { unfold x1; cbn [activation l1 GCNLayer_init spec.nonlinearity].
    apply relu_shape.
    apply (propagate_shape gr c n_hidden); [exact Hc |].
    apply (affine_shape (mkDense n_hidden true) p1 _ in_feats); assumption. }
  pose proof (forward_formula l2 p2 w1 x1 c n_hidden Hnorm1 Hc Hp2) as H2.
  rewrite (dropout_stage_eval l2 w1 x1 Hw1) in H2; cbn [fst snd] in H2.
  rewrite (H2 Hx1).
  unfold w1, with_ndata; cbn; rewrite delete_delete_eq; reflexivity.
Qed.

End TwoLayers.

(* ===================================================================== *)
(** * Further properties: the loss, the accuracy and the arg max *)
(* ===================================================================== *)

Section Scores.

Lemma cross_entropy_nonneg (x : list R) (l : nat) :
  x <> [] -> 0 <= spec.cross_entropy x l.
Proof.
  intros Hx; unfold spec.cross_entropy.
  assert (Hi : (Nat.min l (length x - 1) < length x)%nat).
  { destruct x; [contradiction | cbn; lia]. }
  destruct (lookup_lt_is_Some_2 x _ Hi) as [a Ha].
  rewrite (nth_lookup_Some _ _ 0 _ Ha).
  pose proof (rsum_exp_ge x _ a Ha) as Hge.
  pose proof (exp_pos a) as Hpos.
  assert (Hln : a <= ln (rsum (map exp x))).
  { rewrite <- (ln_exp a) at 1.
    destruct Hge as [Hlt | Heq].
    - left; apply ln_increasing; assumption.
    - rewrite Heq; right; reflexivity. }
  lra.
Qed.

Lemma mean_nonneg (l : list R) : Forall (fun m => 0 <= m) l -> 0 <= mean l.
Proof.
  intros Hl; unfold mean.
  assert (Hs : 0 <= rsum l).
  { induction Hl as [| m l Hm _ IH]; [cbn; lra | rewrite rsum_cons; lra]. }
  destruct l as [| m l].
  - cbn; unfold Rdiv; rewrite Rmult_0_l; lra.
  - apply div_nonneg; [exact Hs |].
    apply lt_0_INR; cbn; lia.
Qed.

(** X11: with a mask of non-negative entries (a 0/1 training mask), the loss
    has one entry per node and no entry is negative. *)
Theorem loss_is_nonnegative
        (pred : tensor) (labels : list nat) (mask : vector) :
  length labels = length pred ->
  Forall (fun x => x <> []) pred ->
  Forall (fun m => 0 <= m) mask ->
  exists loss,
    loss_fcn pred labels mask = Ok loss
    /\ length loss = length pred
    /\ Forall (fun l => 0 <= l) loss.
Proof.
  intros Hlen Hrows Hmask.
  rewrite (loss_fcn_formula pred labels mask Hlen Hrows).
  eexists; split; [reflexivity |].
  split; [rewrite length_zip_with; lia |].
  pose proof (mean_nonneg mask Hmask) as Hm.
  clear Hlen; revert labels.
  induction Hrows as [| x pred Hx _ IH]; intros [| l labels]; cbn;
    try constructor.
  - apply Rmult_le_pos; [apply cross_entropy_nonneg; exact Hx | exact Hm].
  - apply IH.
Qed.

Lemma rsum_exp100_nonneg (x : list R) :
  0 <= rsum (map (fun a => exp (a * 100)) x).
Proof.
  induction x as [| a x IH]; cbn [map]; [cbn; lra |].
  rewrite rsum_cons; pose proof (exp_pos (a * 100)); lra.
Qed.

Lemma rsum_exp100_ge (x : list R) (i : nat) (a : R) :
  x !! i = Some a -> exp (a * 100) <= rsum (map (fun a => exp (a * 100)) x).
Proof.
  revert i; induction x as [| c x IH]; intros i Hi.
  - rewrite lookup_nil in Hi; discriminate.
  - cbn [map]; rewrite rsum_cons.
    destruct i as [| i]; cbn in Hi.
    + injection Hi as ->. pose proof (rsum_exp100_nonneg x); lra.
    + pose proof (IH i Hi); pose proof (exp_pos (c * 100)); lra.
Qed.

Lemma rsum_exp100_two (x : list R) (i j : nat) (a b : R) :
  i <> j -> x !! i = Some a -> x !! j = Some b ->
  exp (a * 100) + exp (b * 100) <= rsum (map (fun a => exp (a * 100)) x).
Proof.
  revert i j; induction x as [| c x IH]; intros i j Hij Hi Hj.
  - rewrite lookup_nil in Hi; discriminate.
  - cbn [map]; rewrite rsum_cons.
    destruct i as [| i], j as [| j]; cbn in Hi, Hj.
    + contradiction.
    + injection Hi as ->. pose proof (rsum_exp100_ge x j b Hj); lra.
    + injection Hj as ->. pose proof (rsum_exp100_ge x i a Hi); lra.
    + assert (Hij' : i <> j) by congruence.
      pose proof (IH i j Hij' Hi Hj); pose proof (exp_pos (c * 100)); lra.
Qed.

(** X12: how the accuracy relates to the arg max: a node adds more than 1/2 to
    the sum only if the logit of its label is strictly larger than every
    other logit of the node. *)
Theorem confident_node_has_argmax_label
        (x : list R) (l j : nat) (a b : R) :
  x !! l = Some a ->
  x !! j = Some b ->
  j <> l ->
  1 / 2 < spec.label_probability x l ->
  b < a.
Proof.
  intros Hl Hj Hjl Hp; unfold spec.label_probability in Hp.
  assert (Hlt : (l < length x)%nat) by (eapply lookup_lt_Some; eauto).
  replace (Nat.min l (length x - 1)) with l in Hp by lia.
  rewrite (nth_lookup_Some _ _ 0 _ Hl) in Hp.
  assert (Hne : l <> j) by congruence.
  pose proof (rsum_exp100_two x l j a b Hne Hl Hj) as Hsum.
  pose proof (exp_pos (a * 100)) as Ha; pose proof (exp_pos (b * 100)) as Hb.
  set (S := rsum (map (fun a => exp (a * 100)) x)) in *.
  assert (HS : 0 < S) by lra.
  assert (H2 : S < 2 * exp (a * 100)).
  { assert (He : exp (a * 100) = exp (a * 100) / S * S) by (field; lra).
    set (q := exp (a * 100) / S) in *.
    assert (Hq : 0 < (q - 1 / 2) * S) by (apply Rmult_lt_0_compat; lra).
    lra. }
  assert (Hexp : exp (b * 100) < exp (a * 100)) by lra.
  apply exp_lt_inv in Hexp; lra.
Qed.

End Scores.

(* ===================================================================== *)
(** * Further properties: what [main] prints and leaves behind *)
(* ===================================================================== *)

Section MainFurther.

Context {RT : Runtime}.

(** The steps of a run of [main] that returns, with the state in which
    the training loop starts. *)
Lemma main_steps (args : Args) (w w' : world) (acc : R) (out : list line) :
  main args w = Ok (acc, out, w') ->
  exists (norm : vector) (model : GCN) (shapes : list nat)
         (theta0 : list DenseParams) (r : RNG) (st : loop_state)
         (pred : tensor) (a : R),
    reals_of (norm_coefficients (main_graph args)) = Ok norm
    /\ model = GCN_init (main_graph args)
                        (width (features (load_dataset (data_args args))))
                        (args_n_hidden args)
                        (num_labels (load_dataset (data_args args)))
                        (args_n_layers args) (Some relu) (args_dropout args)
                        (args_normalization args)
    /\ training_loop model (features (load_dataset (data_args args)))
                     (labels (load_dataset (data_args args)))
                     (train_mask (load_dataset (data_args args)))
                     (number_of_edges (main_graph args)) (args_n_epochs args)
                     (mkLoop theta0
                             (trainer_new (args_lr args) (args_weight_decay args))
                             (mkWorld (<["norm" := expand_dims1 norm]> (ndata w))
                                      r (training w) (ticks w))
                             []
                             [EdgesClasses (number_of_edges (main_graph args))
                                           (num_labels (load_dataset (data_args args)));
                              Params shapes])
       = Ok st
    /\ GCN_forward model (theta st) (lworld st)
                   (features (load_dataset (data_args args))) = Ok (pred, w')
    /\ accuracy pred (labels (load_dataset (data_args args))) = Ok a
    /\ acc = a
    /\ out = printed st ++ [FinalAccuracy a].
Proof.
  unfold main; fold (main_graph args); intros H.
  destruct (reals_of _) as [norm |]; cbn [rbind] in H; [| discriminate].
  unfold frame_set in H.
  destruct (Nat.eqb _ _); cbn [rbind] in H; [| discriminate].
  destruct (init_params _ _) as [theta0 r] eqn:Einit.
  cbn [with_ndata ndata rng training ticks] in H.
  match type of H with
  | rbind (training_loop ?m ?f ?l ?k ?e ?n ?s0) _ = _ =>
      destruct (training_loop m f l k e n s0) as [st |] eqn:Eloop;
      cbn [rbind] in H; [| discriminate]
  end.
  destruct (GCN_forward _ _ _ _) as [[pred wE] |] eqn:Efwd; cbn [rbind] in H;
    [| discriminate].
  destruct (accuracy pred _) as [a |] eqn:Eacc; cbn [rbind] in H;
    [| discriminate].
  rewrite mean_singleton in H; injection H as <- <- <-.
  cbn [app] in Eloop.
  eexists norm, _, _, theta0, r, st, pred, a.
  split; [reflexivity |].
  split; [reflexivity |].
  split; [exact Eloop |].
  split; [exact Efwd |].
  split; [exact Eacc |].
  split; reflexivity.
Qed.

(** What one epoch does to the variables of the loop. *)
Lemma epoch_body_effect (model : GCN) (feats : tensor) (labs : list nat)
      (mask : vector) (n_edges : nat) (st st' : loop_state) (e : nat) :
  epoch_body model feats labs mask n_edges st e = Ok st' ->
  (exists lines,
      printed st' = printed st ++ lines
      /\ length lines = (if (3 <=? e)%nat then 1 else 0)%nat
      /\ Forall (epoch_line_of n_edges) lines)
  /\ ticks (lworld st') = (ticks (lworld st) + if (3 <=? e)%nat then 2 else 0)%nat
  /\ training (lworld st') = training (lworld st)
  /\ length (dur st') = (length (dur st) + if (3 <=? e)%nat then 1 else 0)%nat
  /\ (forall k : string, k <> "h" ->
        ndata (lworld st') !! k = ndata (lworld st) !! k).
Proof.
  unfold epoch_body.
  destruct (3 <=? e)%nat eqn:He.
  - cbn [time fst snd].
    destruct (GCN_forward _ _ _ _) as [[pred w1] |] eqn:Ef; cbn [rbind];
      [| discriminate].
    destruct (loss_fcn _ _ _) as [loss |]; cbn [rbind]; [| discriminate].
    destruct (trainer_step _ _ _ _) as [theta' trainer'].
    destruct (first_entry loss) as [l0 |]; cbn [rbind]; [| discriminate].
    intros [= <-]; cbn.
    apply run_layers_world in Ef as (Ht & Hk & _ & Hn & _); cbn in Ht, Hk, Hn.
    split.
    { eexists [_]; repeat split.
      repeat constructor; eexists _, _, _; reflexivity. }
    split; [rewrite Hk; lia |].
    split; [reflexivity |].
    split; [rewrite length_app; cbn; lia |].
    exact Hn.
  - destruct (GCN_forward _ _ _ _) as [[pred w1] |] eqn:Ef; cbn [rbind];
      [| discriminate].
    destruct (loss_fcn _ _ _) as [loss |]; cbn [rbind]; [| discriminate].
    destruct (trainer_step _ _ _ _) as [theta' trainer'].
    intros [= <-]; cbn.
    apply run_layers_world in Ef as (Ht & Hk & _ & Hn & _); cbn in Ht, Hk, Hn.
    split.
    { exists []; rewrite app_nil_r; repeat split; constructor. }
    split; [rewrite Hk; lia |].
    split; [reflexivity |].
    split; [lia |].
    exact Hn.
Qed.

Lemma for_each_effect (model : GCN) (feats : tensor) (labs : list nat)
      (mask : vector) (n_edges : nat) (es : list nat) :
  forall st st',
    for_each (epoch_body model feats labs mask n_edges) es st = Ok st' ->
    let k := length (List.filter (fun e => (3 <=? e)%nat) es) in
    (exists lines,
        printed st' = printed st ++ lines
        /\ length lines = k
        /\ Forall (epoch_line_of n_edges) lines)
    /\ ticks (lworld st') = (ticks (lworld st) + 2 * k)%nat
    /\ training (lworld st') = training (lworld st)
    /\ length (dur st') = (length (dur st) + k)%nat
    /\ (forall key : string, key <> "h" ->
          ndata (lworld st') !! key = ndata (lworld st) !! key).
Proof.
  induction es as [| e es IH]; intros st st' H; cbn in H.
  - injection H as <-; cbn.
    split; [exists []; rewrite app_nil_r; repeat split; constructor |].
    repeat split; lia.
  - destruct (epoch_body _ _ _ _ _ st e) as [st1 |] eqn:E1; cbn [rbind] in H;
      [| discriminate].
    destruct (epoch_body_effect _ _ _ _ _ _ _ _ E1)
      as ((l1 & Hp1 & Hl1 & HF1) & Hk1 & Ht1 & Hd1 & Hn1).
    destruct (IH _ _ H) as ((l2 & Hp2 & Hl2 & HF2) & Hk2 & Ht2 & Hd2 & Hn2).
    cbn [List.filter]; cbv zeta.
    destruct (3 <=? e)%nat; cbn [length].
    + split.
      { exists (l1 ++ l2); rewrite Hp2, Hp1, <- app_assoc.
        repeat split; [rewrite length_app; lia | apply Forall_app; auto]. }
      repeat split; try lia; try congruence.
      intros key Hkey; rewrite Hn2, Hn1; auto.
    + split.
      { exists (l1 ++ l2); rewrite Hp2, Hp1, <- app_assoc.
        repeat split; [rewrite length_app; lia | apply Forall_app; auto]. }
      repeat split; try lia; try congruence.
      intros key Hkey; rewrite Hn2, Hn1; auto.
Qed.

Lemma GCN_init_forward_world
      (gr : DGLGraph) (in_feats n_hidden n_classes : nat) (n_layers : Z)
      (act : option (tensor -> tensor)) (p : Q) (nm : option string)
      (theta : list DenseParams) (w w' : world) (x out : tensor) :
  GCN_forward (GCN_init gr in_feats n_hidden n_classes n_layers act p nm)
              theta w x = Ok (out, w') ->
  ndata w' = delete "h" (ndata w)
  /\ training w' = training w
  /\ ticks w' = ticks w.
Proof.
  unfold GCN_forward; intros H.
  destruct (run_layers_world _ _ _ _ _ _ H) as (Ht & Hk & _ & _ & Hd).
  repeat split; auto.
  apply Hd; rewrite GCN_init_layers; discriminate.
Qed.

(** X14: everything that [main] prints, in order: the edge and class counts,
    the parameters, one line for each epoch from the fourth on (with the
    throughput computed from the printed edge count), and the final
    accuracy, which is the returned value. *)
Theorem main_output
        (args : Args) (w w' : world) (acc : R) (out : list line) :
  main args w = Ok (acc, out, w') ->
  exists shapes lines,
    out = EdgesClasses (number_of_edges (main_graph args))
                       (num_labels (load_dataset (data_args args)))
          :: Params shapes :: lines ++ [FinalAccuracy acc]
    /\ length lines = (Z.to_nat (args_n_epochs args) - 3)%nat
    /\ Forall (epoch_line_of (number_of_edges (main_graph args))) lines.
Proof.
  intros H.
  apply main_steps in H
    as (norm & model & shapes & theta0 & r & st & pred & a
        & _ & _ & Hloop & _ & _ & -> & ->).
  apply for_each_effect in Hloop as ((lines & Hp & Hl & HF) & _).
  cbn [printed] in Hp.
  exists shapes, lines; rewrite Hp; split; [reflexivity |].
  split; [| exact HF].
  rewrite Hl; unfold range; rewrite filter_from_3; apply length_seq.
Qed.

(** X15: what [main] leaves behind on a graph in which every node has an
    incoming edge: it has read the clock twice for each epoch from the
    fourth on and never otherwise, autograd is back in the mode it was
    in, and the frame holds the normalization (one one-entry row per
    node, each coefficient in (0, 1]), no field ['h'], and every other
    field as before. *)
Theorem main_world
        (args : Args) (w w' : world) (acc : R) (out : list line) :
  (forall v, (v < number_of_nodes (main_graph args))%nat ->
             (1 <= in_degree (main_graph args) v)%nat) ->
  main args w = Ok (acc, out, w') ->
  ticks w' = (ticks w + 2 * (Z.to_nat (args_n_epochs args) - 3))%nat
  /\ training w' = training w
  /\ ndata w' !! "h" = None
  /\ (exists norm,
         ndata w' !! "norm" = Some (expand_dims1 norm)
         /\ length norm = number_of_nodes (main_graph args)
         /\ reals_of (norm_coefficients (main_graph args)) = Ok norm
         /\ Forall (fun r => 0 < r <= 1) norm)
  /\ (forall k : string, k <> "h" -> k <> "norm" ->
        ndata w' !! k = ndata w !! k).
Proof.
  intros Hdeg H.
  apply main_steps in H
    as (norm & model & shapes & theta0 & r & st & pred & a
        & Hnorm & -> & Hloop & Hfwd & _ & _ & _).
  apply for_each_effect in Hloop as (_ & Hk & Ht & _ & Hn).
  cbn [lworld ticks training ndata] in Hk, Ht, Hn.
  apply GCN_init_forward_world in Hfwd as (Hd & Ht' & Hk').
  unfold range in Hk; rewrite filter_from_3, length_seq in Hk.
  split; [congruence |].
  split; [congruence |].
  split; [rewrite Hd; apply lookup_delete_eq |].
  split.
  - exists norm; split; [| split; [| split; [exact Hnorm |]]].
    + rewrite Hd, lookup_delete_ne by discriminate.
      rewrite Hn by discriminate; apply lookup_insert_eq.
    + unfold reals_of in Hnorm; apply mapM_length in Hnorm.
      rewrite Hnorm; apply norm_coefficients_length.
    + destruct (reals_of_finite _ (coefficients_in_unit_interval _ Hdeg))
        as (norm' & Hn' & _ & Hb).
      congruence.
  - intros k Hkh Hkn.
    rewrite Hd, lookup_delete_ne by congruence.
    rewrite Hn by exact Hkh.
    apply lookup_insert_ne; congruence.
Qed.

End MainFurther.

(* ===================================================================== *)
(** * Further properties: the number of rows of the input *)
(* ===================================================================== *)

Section Rows.

Context {RT : Runtime}.

(** X10: an input whose number of rows is neither the number of nodes nor 1
    makes the layer raise: the product with the normalization does not
    broadcast, or the frame refuses the array. *)
Theorem forward_wrong_rows_raises
        (self : GCNLayer) (p : DenseParams) (w : world) (h : tensor)
        (c : vector) :
  ndata w !! "norm" = Some (expand_dims1 c) ->
  length c = number_of_nodes (g self) ->
  length (fst (dropout_stage self w h)) <> number_of_nodes (g self) ->
  length (fst (dropout_stage self w h)) <> 1%nat ->
  exists e, GCNLayer_forward self p w h = Raise e
            /\ (e = ShapeError \/ e = DGLError).
Proof.
  intros Hnorm Hc Hn H1; unfold GCNLayer_forward.
  pose proof (dropout_stage_ndata self w h) as Hd; unfold dropout_stage in *.
  destruct (if truthy (dropout self) then _ else _) as [h1 w1].
  cbn [fst snd] in *.
  destruct (Dense_forward (dense self) p h1) as [h2 |] eqn:E2; cbn [rbind].
  2:{ exists e; split; [reflexivity |].
      unfold Dense_forward in E2.
      assert (He : forall l, mapM (fc_row (dense self) p) l = Raise e ->
                             e = ShapeError).
      { induction l as [| a l IH]; cbn; [discriminate |].
        destruct (fc_row_error (dense self) p a) as [[b Hb] | Ha].
        - rewrite Hb; cbn.
          destruct (mapM _ l); cbn; [discriminate | intros [= <-]; auto].
        - rewrite Ha; cbn; congruence. }
      left; eapply He; eauto. }
  apply Dense_forward_rows in E2 as [Hl2 _].
  unfold frame_get at 1; rewrite Hd, Hnorm; cbn [rbind].
  assert (Hlc : length (expand_dims1 c) = number_of_nodes (g self)).
  { unfold expand_dims1; rewrite length_map; exact Hc. }
  unfold broadcast_mul, bzip at 1.
  rewrite Hl2, Hlc.
  destruct (Nat.eqb_spec (length h1) (number_of_nodes (g self))) as [| _];
    [contradiction |].
  destruct h2 as [| r2 [| r2' h2']].
  - (* no row: the product has no row either *)
    destruct (expand_dims1 c) as [| y [| y' ys]] eqn:Ec.
    + cbn in Hlc; cbn in Hl2; lia.
    + cbn [mapM rbind]; unfold frame_set.
      cbn in Hlc; rewrite <- Hlc; cbn.
      exists DGLError; auto.
    + exists ShapeError; auto.
  - cbn in Hl2; lia.
  - destruct (expand_dims1 c) as [| y [| y' ys]] eqn:Ec.
    + exists ShapeError; auto.
    + destruct (mapM _ _) as [h3 |] eqn:E3; cbn [rbind].
      * apply mapM_length in E3.
        unfold frame_set; rewrite E3.
        cbn in Hlc; rewrite <- Hlc.
        destruct (Nat.eqb_spec (length (r2 :: r2' :: h2')) 1) as [He | _];
          [cbn in He; lia |].
        exists DGLError; auto.
      * exists e; split; [reflexivity |].
        assert (He : forall l,
                   mapM (fun x => bzip (fun a b => Ok (a * b)) x y) l = Raise e ->
                   e = ShapeError).
        { assert (Hb : forall x,
                     (exists o, bzip (fun a b => Ok (a * b)) x y = Ok o)
                     \/ bzip (fun a b => Ok (a * b)) x y = Raise ShapeError).
          { assert (Hy : exists cv, y = [cv]).
            { unfold expand_dims1 in Ec; destruct c as [| cv c'];
                [discriminate | injection Ec as <- _; eauto]. }
            destruct Hy as [cv ->]; intros x; left.
            rewrite bzip_scalar; eauto. }
          induction l as [| a l IH]; cbn; [discriminate |].
          destruct (Hb a) as [[b Hb'] | Ha].
          - rewrite Hb'; cbn.
            destruct (mapM _ l); cbn; [discriminate | intros [= <-]; auto].
          - rewrite Ha; cbn; congruence. }
        left; eapply He; eauto.
    + exists ShapeError; auto.
Qed.

End Rows.

(* ===================================================================== *)
(** * Further concrete runs *)
(* ===================================================================== *)

Section FurtherRuns.

Import example.

Lemma model0_returns :
  exists out w', GCN_forward model0 theta0 world1 h0 = Ok (out, w').
Proof. vm_compute; eexists _, _; reflexivity. Qed.

Lemma no_hidden_layer_below_two_witness :
  layers (GCN_init two_nodes 1433 16 7 0 (Some relu) 0.5%Q None)
  = [GCNLayer_init two_nodes 1433 16 (Some relu) 0.5%Q true;
     GCNLayer_init two_nodes 16 7 None 0.5%Q true].
Proof.
  apply (no_hidden_layer_below_two two_nodes 1433 16 7 0 (Some relu)
           0.5%Q None).
  lia.
Defined.

Lemma model_forward_restores_world_witness :
  exists out w',
    GCN_forward model0 theta0 world1 h0 = Ok (out, w')
    /\ ndata w' = delete "h" (ndata world1)
    /\ w' = with_ndata world1 (delete "h" (ndata world1)).
Proof.
  destruct model0_returns as (out & w' & H).
  exists out, w'; split; [exact H |].
  destruct (model_forward_restores_world two_nodes 1 1 2 1 (Some relu)
              0.5%Q None theta0 world1 w' h0 out H)
    as (Hd & _ & _ & Hw).
  split; [exact Hd | apply Hw; reflexivity].
Defined.

Lemma model_output_shape_witness :
  exists out w',
    GCN_forward model0 theta0 world1 h0 = Ok (out, w')
    /\ spec.shape_is 2 2 out.
Proof.
  destruct model0_returns as (out & w' & H).
  exists out, w'; split; [exact H |].
  apply (model_output_shape two_nodes 1 1 2 1 (Some relu) 0.5%Q None
           theta0 world1 w' h0 out [1; 1]).
  - reflexivity.
  - reflexivity.
  - exact H.
Defined.

Lemma forward_without_norm_raises_witness :
  GCNLayer_forward layer0 params0 world0 h0 = Raise (KeyError "norm").
Proof.
  rewrite (forward_without_norm_raises layer0 params0 world0 h0);
    [| reflexivity].
  vm_compute; reflexivity.
Defined.

Lemma forward_wrong_width_raises_witness :
  GCNLayer_forward layer0 params0 world1 [[1; 2]; [1; 2]] = Raise ShapeError.
Proof.
  apply (forward_wrong_width_raises layer0 params0 world1 [[1; 2]; [1; 2]]
           1 [1; 2]).
  - repeat split; repeat constructor.
  - vm_compute; lia.
  - left; reflexivity.
  - vm_compute; lia.
Defined.

Lemma forward_wrong_rows_raises_witness :
  exists e, GCNLayer_forward layer0 params0 world1 [[1]; [1]; [1]] = Raise e
            /\ (e = ShapeError \/ e = DGLError).
Proof.
  apply (forward_wrong_rows_raises layer0 params0 world1 [[1]; [1]; [1]]
           [1; 1]).
  - reflexivity.
  - reflexivity.
  - vm_compute; lia.
  - vm_compute; lia.
Defined.

Lemma evaluation_ignores_dropout_witness :
  GCN_forward (GCN_init two_nodes 1 1 2 1 (Some relu) 0.5%Q None)
              theta0 world1 h0
  = GCN_forward (GCN_init two_nodes 1 1 2 1 (Some relu) 0%Q None)
                theta0 world1 h0.
Proof.
  apply (evaluation_ignores_dropout two_nodes 1 1 2 1 (Some relu)
           0.5%Q 0%Q None theta0 world1 h0).
  reflexivity.
Defined.

Lemma default_model_formula_witness :
  GCN_forward model0 theta0 world1 h0
  = Ok (propagate two_nodes [1; 1]
          (spec.affine (mkDense 2 true) (mkDenseParams [[1]; [2]] [0; 0])
             (relu (propagate two_nodes [1; 1]
                      (spec.affine (mkDense 1 true)
                                   (mkDenseParams [[1]] [0]) h0)))),
        with_ndata world1 (delete "h" (ndata world1))).
Proof.
  apply (default_model_formula two_nodes 1 1 2 0.5%Q None
           (mkDenseParams [[1]] [0]) (mkDenseParams [[1]; [2]] [0; 0])
           world1 h0 [1; 1]).
  - reflexivity.
  - reflexivity.
  - reflexivity.
  - repeat split; repeat constructor.
  - repeat split; repeat constructor.
  - split; [reflexivity | repeat constructor].
Defined.

Lemma loss_is_nonnegative_witness :
  exists loss,
    loss_fcn logits2 [0; 1]%nat mask2 = Ok loss
    /\ length loss = length logits2
    /\ Forall (fun l => 0 <= l) loss.
Proof.
  apply (loss_is_nonnegative logits2 [0; 1]%nat mask2).
  - reflexivity.
  - repeat constructor; discriminate.
  - repeat constructor; lra.
Defined.

Lemma label_probability_1_0 : 1 / 2 < spec.label_probability [1; 0] 0.
Proof.
  unfold spec.label_probability; cbn [length Nat.sub Nat.min nth map].
  change (rsum [exp (1 * 100); exp (0 * 100)])
    with (exp (1 * 100) + (exp (0 * 100) + 0)).
  assert (H : exp (0 * 100) < exp (1 * 100)) by (apply exp_increasing; lra).
  pose proof (exp_pos (0 * 100)) as H0.
  set (a := exp (1 * 100)) in *; set (b := exp (0 * 100)) in *.
  apply (Rmult_lt_reg_r (a + (b + 0))); [lra |].
  unfold Rdiv; rewrite (Rmult_assoc a), Rinv_l by lra; lra.
Qed.

Lemma confident_node_has_argmax_label_witness : 0 < 1.
Proof.
  apply (confident_node_has_argmax_label [1; 0] 0 1 1 0).
  - reflexivity.
  - reflexivity.
  - lia.
  - exact label_probability_1_0.
Defined.

Lemma main_output_witness :
  exists acc out w' shapes lines,
    main (args0 5 None) world0 = Ok (acc, out, w')
    /\ out = EdgesClasses 2 2 :: Params shapes :: lines ++ [FinalAccuracy acc]
    /\ length lines = 2%nat.
Proof.
  destruct main_returns_5 as ([[acc out] w'] & H).
  destruct (main_output _ _ _ _ _ H) as (shapes & lines & Hout & Hlen & _).
  exists acc, out, w', shapes, lines.
  split; [exact H | split; [exact Hout | exact Hlen]].
Defined.

Lemma main_world_witness :
  exists acc out w',
    main (args0 5 None) world0 = Ok (acc, out, w')
    /\ ticks w' = 4%nat
    /\ ndata w' !! "h" = None.
Proof.
  destruct main_returns_5 as ([[acc out] w'] & H).
  assert (Hdeg : forall v,
             (v < number_of_nodes (main_graph (RT := runtime0)
                                              (args0 5 None)))%nat ->
             (1 <= in_degree (main_graph (RT := runtime0) (args0 5 None))
                             v)%nat).
  { intros v Hv; cbn in Hv.
    destruct v as [| [| v]]; [cbn; lia | cbn; lia | lia]. }
  destruct (main_world _ _ _ _ _ Hdeg H) as (Hk & _ & Hh & _).
  exists acc, out, w'.
  split; [exact H | split; [exact Hk | exact Hh]].
Defined.

End FurtherRuns.

(* ===================================================================== *)
(** * Properties: the exceptions of a run *)
(* ===================================================================== *)

Section Exceptions.

Context {RT : Runtime}.














End Exceptions.

(* ===================================================================== *)
(** * Properties: the epoch lines and the accuracy of [main] *)
(* ===================================================================== *)

Section MainRuns.

Context {RT : Runtime}.

(** The steps of a run of [main] that returns. *)
Lemma main_run (args : Args) (w w' : world) (acc : R) (out : list line) :
  main args w = Ok (acc, out, w') ->
  exists (norm : vector) (st : loop_state) (pred : tensor),
    reals_of (norm_coefficients (main_graph args)) = Ok norm
    /\ training_loop (main_model args)
                     (features (load_dataset (data_args args)))
                     (labels (load_dataset (data_args args)))
                     (train_mask (load_dataset (data_args args)))
                     (number_of_edges (main_graph args)) (args_n_epochs args)
                     (loop_start args w norm)
       = Ok st
    /\ GCN_forward (main_model args) (theta st) (lworld st)
                   (features (load_dataset (data_args args))) = Ok (pred, w')
    /\ accuracy pred (labels (load_dataset (data_args args))) = Ok acc
    /\ out = printed st ++ [FinalAccuracy acc].
Proof.
  unfold main; fold (main_graph args); intros H.
  destruct (reals_of _) as [norm |]; cbn [rbind] in H; [| discriminate].
  unfold frame_set in H.
  destruct (Nat.eqb _ _); cbn [rbind] in H; [| discriminate].
  fold (main_model args) in H.
  destruct (init_params _ _) as [theta0 r] eqn:Einit.
  cbn [with_ndata ndata rng training ticks] in H.
  match type of H with
  | rbind (training_loop ?m ?f ?l ?k ?e ?n ?s0) _ = _ =>
      destruct (training_loop m f l k e n s0) as [st |] eqn:Eloop;
      cbn [rbind] in H; [| discriminate]
  end.
  destruct (GCN_forward _ _ _ _) as [[pred wE] |] eqn:Efwd; cbn [rbind] in H;
    [| discriminate].
  destruct (accuracy pred _) as [a |] eqn:Eacc; cbn [rbind] in H;
    [| discriminate].
  rewrite mean_singleton in H; injection H as <- <- <-.
  cbn [app] in Eloop.
  exists norm, st, pred.
  split; [reflexivity |].
  split; [| auto].
  unfold loop_start, main_model, main_graph, with_self_loops; cbv zeta.
  cbn [with_ndata rng] in Einit; rewrite Einit; exact Eloop.
Qed.

Lemma for_each_app {S : Type} (body : S -> nat -> result S)
      (l1 l2 : list nat) (st : S) :
  for_each body (l1 ++ l2) st
  = rbind (for_each body l1 st) (for_each body l2).
Proof.
  revert st; induction l1 as [| i l1 IH]; intros st; cbn; [reflexivity |].
  destruct (body st i) as [st1 |]; cbn [rbind]; [apply IH | reflexivity].
Qed.

(** An epoch from the fourth on: what it computes, times and prints. *)
Lemma epoch_body_timed (model : GCN) (feats : tensor) (labs : list nat)
      (mask : vector) (n_edges : nat) (st st' : loop_state) (e : nat) :
  (3 <= e)%nat ->
  epoch_body model feats labs mask n_edges st e = Ok st' ->
  exists pred w1 loss loss0,
    GCN_forward model (theta st)
                (with_training (snd (time (lworld st))) true) feats
    = Ok (pred, w1)
    /\ loss_fcn pred labs mask = Ok loss
    /\ first_entry loss = Ok loss0
    /\ dur st' = dur st ++ [clock (S (ticks (lworld st)))
                            - clock (ticks (lworld st))]
    /\ printed st'
       = printed st ++ [Epoch e loss0 (mean (dur st'))
                              (INR n_edges / mean (dur st') / 1000)]
    /\ ticks (lworld st') = (ticks (lworld st) + 2)%nat.
Proof.
  intros He; unfold epoch_body.
  rewrite (proj2 (Nat.leb_le 3 e) He).
  cbn [time fst snd].
  destruct (GCN_forward _ _ _ _) as [[pred w1] |] eqn:Ef; cbn [rbind];
    [| discriminate].
  destruct (loss_fcn _ _ _) as [loss |] eqn:El; cbn [rbind]; [| discriminate].
  destruct (trainer_step _ _ _ _) as [theta' trainer'].
  destruct (first_entry loss) as [l0 |] eqn:E0; cbn [rbind]; [| discriminate].
  intros [= <-]; cbn [dur printed lworld ticks].
  exists pred, w1, loss, l0.
  pose proof Ef as Hw; apply run_layers_world in Hw as (_ & Hk & _).
  cbn [with_training ticks] in Hk.
  repeat split; auto.
  - rewrite Hk; reflexivity.
  - cbn [with_training ticks]; rewrite Hk; lia.
Qed.

(** One of the first three epochs: no clock reading, no line. *)
Lemma epoch_body_untimed (model : GCN) (feats : tensor) (labs : list nat)
      (mask : vector) (n_edges : nat) (st st' : loop_state) (e : nat) :
  (e < 3)%nat ->
  epoch_body model feats labs mask n_edges st e = Ok st' ->
  dur st' = dur st
  /\ printed st' = printed st
  /\ ticks (lworld st') = ticks (lworld st).
Proof.
  intros He; unfold epoch_body.
  rewrite (proj2 (Nat.leb_gt 3 e) He).
  destruct (GCN_forward _ _ _ _) as [[pred w1] |] eqn:Ef; cbn [rbind];
    [| discriminate].
  destruct (loss_fcn _ _ _) as [loss |]; cbn [rbind]; [| discriminate].
  destruct (trainer_step _ _ _ _) as [theta' trainer'].
  intros [= <-]; cbn [dur printed lworld ticks].
  apply run_layers_world in Ef as (_ & Hk & _).
  cbn [with_training ticks] in Hk |- *.
  repeat split; auto.
Qed.

Lemma durations_S (k m : nat) :
  durations k (S m)
  = durations k m ++ [clock (S (k + 2 * m)) - clock (k + 2 * m)].
Proof.
  unfold durations; rewrite seq_S, map_app; cbn [map Nat.add].
  do 3 f_equal; f_equal; lia.
Qed.

(** The variables of the loop after its first [e] iterations. *)
Lemma loop_prefix (model : GCN) (feats : tensor) (labs : list nat)
      (mask : vector) (n_edges : nat) (st0 : loop_state) :
  dur st0 = [] ->
  forall (e : nat) (st : loop_state),
    for_each (epoch_body model feats labs mask n_edges) (seq 0 e) st0 = Ok st ->
    dur st = durations (ticks (lworld st0)) (e - 3)
    /\ ticks (lworld st) = (ticks (lworld st0) + 2 * (e - 3))%nat
    /\ length (printed st) = (length (printed st0) + (e - 3))%nat.
Proof.
  intros Hd0; induction e as [| e IH]; intros st H.
  - cbn in H; injection H as <-; cbn.
    rewrite Hd0; repeat split; lia.
  - rewrite seq_S, for_each_app in H; cbn [Nat.add] in H.
    destruct (for_each _ (seq 0 e) st0) as [st1 |] eqn:E1; cbn [rbind] in H;
      [| discriminate].
    destruct (IH st1 eq_refl) as (Hd & Hk & Hp).
    cbn [for_each] in H.
    destruct (epoch_body _ _ _ _ _ st1 e) as [st2 |] eqn:E2; cbn [rbind] in H;
      [| discriminate].
    injection H as <-.
    destruct (Nat.le_gt_cases 3 e) as [He | He].
    + destruct (epoch_body_timed _ _ _ _ _ _ _ _ He E2)
        as (pred & w1 & loss & l0 & _ & _ & _ & Hd2 & Hp2 & Hk2).
      replace (S e - 3)%nat with (S (e - 3)) by lia.
      rewrite durations_S, Hd2, Hd, Hk, Hk2, Hp2, length_app.
      cbn [length]; repeat split; lia.
    + destruct (epoch_body_untimed _ _ _ _ _ _ _ _ He E2) as (Hd2 & Hp2 & Hk2).
      replace (S e - 3)%nat with 0%nat by lia.
      replace (e - 3)%nat with 0%nat in Hd, Hk, Hp by lia.
      rewrite Hd2, Hp2, Hk2; auto.
Qed.

Lemma for_each_printed (model : GCN) (feats : tensor) (labs : list nat)
      (mask : vector) (n_edges : nat) (es : list nat) :
  forall st st',
    for_each (epoch_body model feats labs mask n_edges) es st = Ok st' ->
    exists lines, printed st' = printed st ++ lines.
Proof.
  intros st st' H; apply for_each_effect in H as ((lines & Hp & _) & _).
  eauto.
Qed.

(** C4, as the code has it: [main] prints one line for every epoch whose
    index is at least 3, in order, and none for the epochs 0, 1 and 2.
    The line of epoch [e] holds the first entry of the loss array that
    this epoch computes from its forward pass ([loss.asnumpy()[0]]), the
    mean of the [e - 2] durations measured so far, and the number of
    edges divided by this mean and by 1000. *)
Theorem epoch_lines_from_fourth_epoch
        (args : Args) (w w' : world) (acc : R) (out : list line) :
  main args w = Ok (acc, out, w') ->
  logged_epochs out = seq 3 (Z.to_nat (args_n_epochs args) - 3)
  /\ (forall e : nat,
         In e (logged_epochs out)
         <-> (3 <= e)%nat /\ (Z.of_nat e < args_n_epochs args)%Z)
  /\ (forall e : nat,
         (3 <= e)%nat -> (Z.of_nat e < args_n_epochs args)%Z ->
         exists norm st pred w1 loss loss0,
           reals_of (norm_coefficients (main_graph args)) = Ok norm
           /\ training_loop (main_model args)
                            (features (load_dataset (data_args args)))
                            (labels (load_dataset (data_args args)))
                            (train_mask (load_dataset (data_args args)))
                            (number_of_edges (main_graph args))
                            (Z.of_nat e) (loop_start args w norm)
              = Ok st
           /\ GCN_forward (main_model args) (theta st)
                          (with_training (snd (time (lworld st))) true)
                          (features (load_dataset (data_args args)))
              = Ok (pred, w1)
           /\ loss_fcn pred (labels (load_dataset (data_args args)))
                       (train_mask (load_dataset (data_args args)))
              = Ok loss
           /\ first_entry loss = Ok loss0
           /\ out !! (e - 1)%nat
              = Some (Epoch e loss0
                        (mean (durations (ticks w) (e - 2)))
                        (INR (number_of_edges (main_graph args))
                         / mean (durations (ticks w) (e - 2)) / 1000))).
Proof.
  intros H.
  apply main_run in H as (norm & st & pred & Hnorm & Hloop & _ & _ & ->).
  assert (Hout : logged_epochs (printed st ++ [FinalAccuracy acc])
                 = seq 3 (Z.to_nat (args_n_epochs args) - 3)).
  { pose proof Hloop as Hl; apply for_each_logged in Hl.
    unfold logged_epochs at 1; rewrite omap_app; cbn [omap].
    rewrite app_nil_r; fold (logged_epochs (printed st)).
    rewrite Hl; unfold range; cbn [loop_start printed logged_epochs omap app].
    apply filter_from_3. }
  split; [exact Hout |].
  split; [intros e; rewrite Hout, in_seq; lia |].
  intros e He Hlt.
  set (n := Z.to_nat (args_n_epochs args)) in *.
  assert (Hen : (e < n)%nat) by lia.
  unfold training_loop, range in Hloop; fold n in Hloop.
  replace n with (e + S (n - S e))%nat in Hloop by lia.
  rewrite seq_app, for_each_app in Hloop; cbn [Nat.add seq for_each] in Hloop.
  destruct (for_each _ (seq 0 e) _) as [st1 |] eqn:E1; cbn [rbind] in Hloop;
    [| discriminate].
  destruct (epoch_body _ _ _ _ _ st1 e) as [st2 |] eqn:E2; cbn [rbind] in Hloop;
    [| discriminate].
  destruct (loop_prefix _ _ _ _ _ (loop_start args w norm) eq_refl e st1 E1)
    as (Hd & Hk & Hp).
  cbn [loop_start lworld ticks printed length] in Hd, Hk, Hp.
  destruct (epoch_body_timed _ _ _ _ _ _ _ _ He E2)
    as (pred1 & w1 & loss & l0 & Hf & Hl & H0 & Hd2 & Hp2 & _).
  apply for_each_printed in Hloop as (rest & Hrest).
  exists norm, st1, pred1, w1, loss, l0.
  split; [exact Hnorm |].
  split.
  { unfold training_loop, range; rewrite Nat2Z.id; exact E1. }
  split; [exact Hf |].
  split; [exact Hl |].
  split; [exact H0 |].
  assert (Hdur : dur st2 = durations (ticks w) (e - 2)).
  { replace (e - 2)%nat with (S (e - 3)) by lia.
    rewrite durations_S, Hd2, Hd, Hk; reflexivity. }
  rewrite Hrest, Hp2, Hdur, <- !app_assoc.
  rewrite lookup_app_r by lia.
  replace (e - 1 - length (printed st1))%nat with 0%nat by lia.
  reflexivity.
Qed.


End MainRuns.

(* ===================================================================== *)
(** * Runs of [main] *)
(* ===================================================================== *)

Section MainExamples.

Import example.



Lemma epoch_lines_from_fourth_epoch_witness :
  exists acc out w',
    main (args0 5 None) world0 = Ok (acc, out, w')
    /\ logged_epochs out = [3; 4]%nat
    /\ exists loss0,
         out !! 2%nat
         = Some (Epoch 3 loss0
                   (mean (durations (RT := runtime0) (ticks world0) 1))
                   (INR (number_of_edges
                           (main_graph (RT := runtime0) (args0 5 None)))
                    / mean (durations (RT := runtime0) (ticks world0) 1)
                    / 1000)).
Proof.
  destruct main_returns_5 as ([[acc out] w'] & H).
  exists acc, out, w'; split; [exact H |].
  destruct (epoch_lines_from_fourth_epoch _ _ _ _ _ H) as (Hl & _ & Hline).
  split; [exact Hl |].
  destruct (Hline 3%nat (le_n 3) eq_refl)
    as (norm & st & pred & w1 & loss & loss0 & _ & _ & _ & _ & _ & Hout).
  exists loss0; exact Hout.
Defined.



End MainExamples.
